(** * The tool-invocation orchestrator of the API chat service

    A shallow embedding of [makeOpenAiApiChatLlm] and its helpers
    (services/conversations.ts, second document): the window of callable
    functions, the system prompt, the rebuilt conversation, the reading of
    the completion response and the dispatch of a function call.

    JavaScript arrays that the code pushes to are kept in a heap of arrays
    and handled through references; the calls to the outside (completion
    service, catalog search, downstream HTTP) are oracles of a [World] and
    every such call is recorded in a trace.

    The URL builder of the conversation service (first document of the
    same file) and the mock generator of conversation data are embedded
    in the modules [ConversationService] and [Mock]. *)

From stdpp Require Import base strings list gmap.
From Stdlib Require Import ZArith Ascii.

Local Open Scope Z_scope.
Set Warnings "-register-all".

(** ** Values *)

(** A JavaScript value as far as the orchestrator looks into one: it tests
    [typeof v === "string"] and truthiness, everything else is passed on. *)
Inductive JsValue : Type :=
  | JNull
  | JBool (b : bool)
  | JNum (z : Z)
  | JStr (s : string)
  | JArr (l : list JsValue)
  | JObj (fields : list (string * JsValue)).

(** [FunctionDefinition] of the completion API. *)
Record FunctionDefinition : Type := {
  fd_name : string;
  fd_description : option string;
  fd_parameters : JsValue;
}.

(** [PersistedFunctionDefinition]; [httpVerb] and [path] are there on a
    [PersistedHttpRequestFunctionDefinition]. *)
Record PersistedFunctionDefinition : Type := {
  definition : FunctionDefinition;
  httpVerb : option string;
  path : option string;
}.

Definition pname (f : PersistedFunctionDefinition) : string :=
  fd_name (definition f).

(** ** The window of available functions *)

(** [.filter] with the set [uniqueFunctionNames] that the callback reads
    and extends. *)
Fixpoint filterUnique (uniqueFunctionNames : gset string)
    (l : list PersistedFunctionDefinition) : list PersistedFunctionDefinition :=
  match l with
  | [] => []
  | fxn :: rest =>
      if decide (pname fxn ∈ uniqueFunctionNames)
      then filterUnique uniqueFunctionNames rest
      else fxn :: filterUnique ({[pname fxn]} ∪ uniqueFunctionNames) rest
  end.

(** [availableFunctionsCopy]: base definitions, then the carried ones,
    first occurrence of each name kept. *)
Definition availableFunctionsCopy
    (availableFunctionDefinitions baseFunctionDefinitions
       : list PersistedFunctionDefinition)
    : list PersistedFunctionDefinition :=
  filterUnique ∅ (baseFunctionDefinitions ++ availableFunctionDefinitions).

(** [baseFunctionDefinitions.find(baseFunc => baseFunc.definition.name ===
    llmFunc.definition.name)], read as a truth value. *)
Definition isBaseFunction (baseFunctionDefinitions : list PersistedFunctionDefinition)
    (llmFunc : PersistedFunctionDefinition) : bool :=
  bool_decide (pname llmFunc ∈ pname <$> baseFunctionDefinitions).

(** The second [.filter], whose callback increments [counter] on every
    element. *)
Fixpoint filterCounter (baseFunctionDefinitions : list PersistedFunctionDefinition)
    (maxNumDynamicFunctions counter : Z)
    (l : list PersistedFunctionDefinition) : list PersistedFunctionDefinition :=
  match l with
  | [] => []
  | llmFunc :: rest =>
      let toInclude :=
        (counter <=? maxNumDynamicFunctions)
        || negb (isBaseFunction baseFunctionDefinitions llmFunc) in
      let counter := counter + 1 in
      if toInclude
      then llmFunc :: filterCounter baseFunctionDefinitions maxNumDynamicFunctions counter rest
      else filterCounter baseFunctionDefinitions maxNumDynamicFunctions counter rest
  end.

Definition getMaxAvailableFunctionDefinitions
    (availableFunctionDefinitions baseFunctionDefinitions
       : list PersistedFunctionDefinition)
    (maxNumDynamicFunctions : Z) : list PersistedFunctionDefinition :=
  let copy :=
    availableFunctionsCopy availableFunctionDefinitions baseFunctionDefinitions in
  if maxNumDynamicFunctions <? Z.of_nat (length availableFunctionDefinitions)
  then
    reverse
      (filterCounter baseFunctionDefinitions maxNumDynamicFunctions 0
         (reverse copy))
  else copy.

(** ** Messages *)

Record FunctionCall : Type := {
  fc_name : string;
  fc_arguments : string;
}.

(** [ChatMessage] of the completion API: the four fields the completion
    service accepts. *)
Record ChatMessage : Type := {
  role : string;
  content : option string;
  name : option string;
  functionCall : option FunctionCall;
}.

(** [OpenAiChatMessage]: a [ChatMessage] that may carry the function
    definitions available when it was produced. *)
Record OpenAiChatMessage : Type := {
  chat : ChatMessage;
  functions : option (list PersistedFunctionDefinition);
}.

Record ChatChoice : Type := { message : option ChatMessage }.
Record ChatCompletions : Type := { choices : list ChatChoice }.

(** [HttpRequestArgs]: what the caller supplies once per conversation. *)
Record HttpRequestArgs : Type := {
  headers : option JsValue;
  body : option JsValue;
  pathParameters : option JsValue;
  queryParameters : option JsValue;
}.

Definition emptyHttpRequestArgs : HttpRequestArgs :=
  {| headers := None; body := None; pathParameters := None; queryParameters := None |}.

(** [HttpApiCredentials] is handed to the downstream call and never looked
    into. *)
Definition HttpApiCredentials : Type := JsValue.

(** [GetChatCompletionsOptions] after [{...options, functions, functionCall}]. *)
Record MessageOptions : Type := {
  mo_options : JsValue;
  mo_functions : list FunctionDefinition;
  mo_functionCall : string;
}.

(** What a function of the window returns ([Promise<unknown>]): some value,
    or the definitions found by the catalog search. *)
Inductive Unknown : Type :=
  | UValue (v : JsValue)
  | UDefs (l : list PersistedFunctionDefinition).

(** ** Exceptions, the heap of arrays and the trace of outside calls *)

Inductive Exn : Type :=
  | TypeError (msg : string)
  | Error (msg : string)
  | AssertionError (msg : string)
  | SyntaxError (msg : string)
  | Rejected (reason : JsValue).

Inductive Outcome (A : Type) : Type :=
  | Returned (a : A)
  | Thrown (e : Exn).
Arguments Returned {A} a.
Arguments Thrown {A} e.

Inductive Event : Type :=
  | EvGetChatCompletions (deploymentName : string)
      (messages : list ChatMessage) (options : MessageOptions)
  | EvExecuteHttpApiRequest (httpVerb resourcePath : option string)
      (staticHttpRequestArgs : HttpRequestArgs) (dynamicHttpRequestArgs : JsValue)
      (apiCredentials : HttpApiCredentials)
  | EvFindApiSpecFunctionDefinition (arg : JsValue).

(** A reference to an array of messages is its index in the heap. *)
Abbreviation ArrayRef := nat (only parsing).

Record State : Type := {
  heap : list (list OpenAiChatMessage);
  trace : list Event;
}.

Definition M (A : Type) : Type := State → Outcome A * State.

#[global] Instance M_ret : MRet M := λ A a σ, (Returned a, σ).

#[global] Instance M_bind : MBind M := λ A B k c σ,
  match c σ with
  | (Returned a, σ') => k a σ'
  | (Thrown e, σ') => (Thrown e, σ')
  end.

Definition throw {A} (e : Exn) : M A := λ σ, (Thrown e, σ).

(** [[...]]: a new array. *)
Definition newArray (l : list OpenAiChatMessage) : M ArrayRef :=
  λ σ, (Returned (length (heap σ)), {| heap := heap σ ++ [l]; trace := trace σ |}).

(** The elements of an array; a reference that is not in the heap, which
    JavaScript cannot produce, reads as the empty array. *)
Definition readArray (r : ArrayRef) : M (list OpenAiChatMessage) :=
  λ σ, (Returned (default [] (heap σ !! r)), σ).

(** [r.push(...msgs)] *)
Definition push (r : ArrayRef) (msgs : list OpenAiChatMessage) : M unit :=
  λ σ, (Returned (), {| heap := alter (λ l, l ++ msgs) r (heap σ); trace := trace σ |}).

(** What a collaborator answers: a settled promise. *)
Inductive Promise (A : Type) : Type :=
  | Fulfilled (a : A)
  | RejectedWith (reason : JsValue).
Arguments Fulfilled {A} a.
Arguments RejectedWith {A} reason.

Definition settle {A} (p : Promise A) : Outcome A :=
  match p with
  | Fulfilled a => Returned a
  | RejectedWith reason => Thrown (Rejected reason)
  end.

(** [await] of a call to the outside: the call is recorded in the trace,
    a rejection is thrown. *)
Definition await {A} (ev : Event) (p : Promise A) : M A :=
  λ σ, (settle p, {| heap := heap σ; trace := trace σ ++ [ev] |}).

(** The collaborators that are not part of this program. *)
Record World : Type := {
  getChatCompletions : string → list ChatMessage → MessageOptions → Promise ChatCompletions;
  executeHttpApiRequest :
    option string → option string → HttpRequestArgs → JsValue → HttpApiCredentials →
    Promise JsValue;
  findApiSpecFunctionDefinition : JsValue → Promise (list PersistedFunctionDefinition);
  JSON_parse : string → option JsValue;
  JSON_stringify : Unknown → string;
  yaml_stringify : JsValue → string;
}.

(** ** JavaScript truthiness, strings *)

Definition truthy (v : JsValue) : bool :=
  match v with
  | JNull => false
  | JBool b => b
  | JNum z => negb (z =? 0)
  | JStr s => negb (bool_decide (s = ""))
  | JArr _ | JObj _ => true
  end.

Definition nl : string := String "010"%char "".
Definition dquote : string := String "034"%char "".

(** [l.join(sep)] *)
Fixpoint join (sep : string) (l : list string) : string :=
  match l with
  | [] => ""
  | [s] => s
  | s :: rest => s +:+ sep +:+ join sep rest
  end.

(** ** White space

    A string is the sequence of the UTF-8 bytes of the JavaScript string.
    [String.prototype.trim], [trimStart] and [trimEnd] remove the code
    points WhiteSpace and LineTerminator of ECMAScript:
    U+0009 to U+000D and U+0020 (one byte each), U+00A0 (two bytes),
    U+1680, U+2000 to U+200A, U+2028, U+2029, U+202F, U+205F, U+3000 and
    U+FEFF (three bytes each). *)

(** U+00A0 *)
Definition white2 (a b : ascii) : bool :=
  Ascii.eqb a "194" && Ascii.eqb b "160".

(** U+1680; U+2000 to U+200A, U+2028, U+2029, U+202F; U+205F; U+3000;
    U+FEFF *)
Definition white3 (a b c : ascii) : bool :=
  (Ascii.eqb a "225" && (Ascii.eqb b "154" && Ascii.eqb c "128"))
  || (Ascii.eqb a "226"
      && (Ascii.eqb b "128"
          && ((128 <=? N_of_ascii c)%N && (N_of_ascii c <=? 138)%N
              || Ascii.eqb c "168" || Ascii.eqb c "169" || Ascii.eqb c "175")))
  || (Ascii.eqb a "226" && (Ascii.eqb b "129" && Ascii.eqb c "159"))
  || (Ascii.eqb a "227" && (Ascii.eqb b "128" && Ascii.eqb c "128"))
  || (Ascii.eqb a "239" && (Ascii.eqb b "187" && Ascii.eqb c "191")).

Fixpoint trimStart (s : string) : string :=
  match s with
  | "" => ""
  | String a s1 =>
      if Ascii.is_space a then trimStart s1
      else
        match s1 with
        | "" => s
        | String b s2 =>
            if white2 a b then trimStart s2
            else
              match s2 with
              | "" => s
              | String c s3 => if white3 a b c then trimStart s3 else s
              end
        end
  end.

(** The string up to the first position from which only white space
    follows. *)
Fixpoint trimEnd (s : string) : string :=
  match s with
  | "" => ""
  | String a s' =>
      match trimStart s with
      | "" => ""
      | _ => String a (trimEnd s')
      end
  end.

Definition trim (s : string) : string := trimEnd (trimStart s).

(** ** The functions of the window *)

(** [ChatGptLlmFunction]: a definition with the callable behind it.
    [fn_name] is the field [name]. *)
Record ChatGptLlmFunction : Type := {
  persistedFunction : PersistedFunctionDefinition;
  function : JsValue → M Unknown;
  dynamic : option bool;
  fn_name : string;
}.

(** [f.dynamic] read as a condition. *)
Definition isDynamic (f : ChatGptLlmFunction) : bool :=
  match dynamic f with Some true => true | _ => false end.

Definition find_api_spec_action : string := "find_api_spec_action".

Definition findApiSpecActionDefinition : FunctionDefinition :=
  {| fd_name := find_api_spec_action;
     fd_description := Some "Find an action in the API spec";
     fd_parameters :=
       JObj [("type", JStr "object");
             ("properties",
              JObj [("query",
                     JObj [("type", JStr "string");
                           ("description", JStr "repeat the user's query")])]);
             ("required", JArr [JStr "query"])] |}.

Definition baseOpenAiFunctionDefinitions : list FunctionDefinition :=
  [findApiSpecActionDefinition].

Section Orchestrator.

Context (w : World).

Definition makeFindApiSpecAction : ChatGptLlmFunction :=
  {| fn_name := find_api_spec_action;
     persistedFunction :=
       {| definition := findApiSpecActionDefinition; httpVerb := None; path := None |};
     function := λ arg,
       l ← await (EvFindApiSpecFunctionDefinition arg)
              (findApiSpecFunctionDefinition w arg);
       mret (UDefs l);
     dynamic := None |}.

Definition baseFunctions : list ChatGptLlmFunction := [makeFindApiSpecAction].

Definition makeDynamicHttpLlmFunctionFromFunctionDefinition
    (persistedFunctionDefinition : PersistedFunctionDefinition)
    (staticHttpRequestArgs : HttpRequestArgs)
    (apiCredentials : HttpApiCredentials) : ChatGptLlmFunction :=
  {| fn_name := pname persistedFunctionDefinition;
     persistedFunction := persistedFunctionDefinition;
     function := λ dynamicHttpRequestArgs,
       let httpVerb := httpVerb persistedFunctionDefinition in
       let resourcePath := path persistedFunctionDefinition in
       r ← await
              (EvExecuteHttpApiRequest httpVerb resourcePath staticHttpRequestArgs
                 dynamicHttpRequestArgs apiCredentials)
              (executeHttpApiRequest w httpVerb resourcePath staticHttpRequestArgs
                 dynamicHttpRequestArgs apiCredentials);
       mret (UValue r);
     dynamic := Some true |}.

Definition makeAvailableLlmFunctionsFromFunctionDefinitions
    (functionDefinitions : list PersistedFunctionDefinition)
    (baseLlmFunctions : list ChatGptLlmFunction)
    (staticHttpRequestArgs : HttpRequestArgs)
    (maxNumDynamicFunctions : Z)
    (apiCredentials : HttpApiCredentials) : list ChatGptLlmFunction :=
  let availableFunctionDefinitions :=
    getMaxAvailableFunctionDefinitions functionDefinitions
      (persistedFunction <$> baseLlmFunctions) maxNumDynamicFunctions in
  (λ functionDefinition,
     match List.find
             (λ baseFunction,
                bool_decide (fn_name baseFunction = pname functionDefinition))
             baseLlmFunctions with
     | Some baseLlmFunction => baseLlmFunction
     | None =>
         makeDynamicHttpLlmFunctionFromFunctionDefinition functionDefinition
           staticHttpRequestArgs apiCredentials
     end) <$> availableFunctionDefinitions.

(** ** The system prompt *)

(** One labelled block of [makeUserSystemPromptContext]. *)
Definition contextBlock (label : string) (field : option JsValue) : string :=
  match field with
  | Some v =>
      if truthy v then label +:+ nl +:+ trim (yaml_stringify w v) +:+ nl else ""
  | None => ""
  end.

Definition makeUserSystemPromptContext (staticHttpRequestArgs : HttpRequestArgs)
    : string :=
  trimEnd
    ("The following information is available for you to use for calling functions:"
     +:+ nl
     +:+ contextBlock "Headers:" (headers staticHttpRequestArgs)
     +:+ contextBlock "Request body:" (body staticHttpRequestArgs)
     +:+ contextBlock "Path parameters:" (pathParameters staticHttpRequestArgs)
     +:+ contextBlock "Query parameters:" (queryParameters staticHttpRequestArgs)
     +:+ nl +:+ "  ").

(** The instruction block on the dynamic functions. *)
Definition dynamicFunctionsInstruction (dynamicFuncs : list ChatGptLlmFunction)
    : string :=
  "Call the functions "
  +:+ join ", " ((λ func, pname (persistedFunction func)) <$> dynamicFuncs)
  +:+ " only when you have all necessary parameters to complete the action."
  +:+ nl
  +:+ "If you don't yet have all the necessary information, continue asking the user for more information until you have it all."
  +:+ nl
  +:+ "If you have the necessary information, call the function and then append the function's response to the conversation.".

Definition makeSystemPrompt (baseSystemPrompt : string)
    (currentFunctions : list ChatGptLlmFunction)
    (staticHttpRequestArgs : option HttpRequestArgs) : string :=
  let dynamicFuncs := List.filter isDynamic currentFunctions in
  let systemPrompt := baseSystemPrompt in
  let systemPrompt :=
    if (0 <? length dynamicFuncs)%nat
    then baseSystemPrompt +:+ dynamicFunctionsInstruction dynamicFuncs
    else systemPrompt in
  match staticHttpRequestArgs with
  | Some args => systemPrompt +:+ nl +:+ makeUserSystemPromptContext args
  | None => systemPrompt
  end.

(** ** The rebuilt conversation *)

Definition systemMessage (text : string) : OpenAiChatMessage :=
  {| chat := {| role := "system"; content := Some text; name := None;
                functionCall := None |};
     functions := None |}.

Definition userMessage (text : string) : OpenAiChatMessage :=
  {| chat := {| role := "user"; content := Some text; name := None;
                functionCall := None |};
     functions := None |}.

(** [message.role !== "system"] *)
Definition notSystem (message : OpenAiChatMessage) : bool :=
  negb (bool_decide (role (chat message) = "system")).

(** [if (query)]: an absent and an empty query are both falsy. *)
Definition queryGiven (query : option string) : option string :=
  match query with
  | Some q => if bool_decide (q = "") then None else Some q
  | None => None
  end.

Definition updateConversationWithNewSystemPrompt
    (baseSystemPrompt : string)
    (availableLlmFunctions : list ChatGptLlmFunction)
    (messages : ArrayRef)
    (query : option string)
    (staticHttpRequestArgs : option HttpRequestArgs) : M ArrayRef :=
  old ← readArray messages;
  currentMessages ←
    newArray
      (systemMessage
         (makeSystemPrompt baseSystemPrompt availableLlmFunctions
            staticHttpRequestArgs)
       :: List.filter notSystem old);
  match queryGiven query with
  | Some q => push currentMessages [userMessage q]
  | None => mret ()
  end;;
  mret currentMessages.

(** ** The completion response *)

Definition getChatMessageFromOpenAiResponse (chatChatCompletions : ChatCompletions)
    : M ChatMessage :=
  match choices chatChatCompletions with
  | {| message := Some m |} :: _ => mret m
  | _ => throw (Error "No message returned from OpenAI API")
  end.

(** ** The dispatch of a function call *)

Definition noFunctionCallMessage : string :=
  "No function call returned from OpenAI. This function should only be called if it's validated that the response message has the `functionCall` property.".

(** The content of the function message after a catalog search. *)
Definition foundFunctionsContent (apiSpecActions : list PersistedFunctionDefinition)
    : string :=
  if (0 <? length apiSpecActions)%nat
  then
    "Found the following function(s) to use:" +:+ nl
    +:+ "- " +:+ join (nl +:+ "- ") (pname <$> apiSpecActions)
    +:+ nl +:+ nl
    +:+ "They have been added to your set of available functions. Execute the function if you have sufficient data. If you need more data, ask the user for it."
  else "No function found in the API spec. Try asking the user for more information.".

(** [functionResponse as PersistedFunctionDefinition[]], used through
    [.length], [.map] and the spread: the empty array and the empty string
    pass for the empty list, any other value that is not an array of
    definitions ends in a TypeError. *)
Definition asFunctionDefinitions (functionResponse : Unknown)
    : M (list PersistedFunctionDefinition) :=
  match functionResponse with
  | UDefs l => mret l
  | UValue (JArr []) | UValue (JStr "") => mret []
  | UValue _ => throw (TypeError "apiSpecActions is not an array of function definitions")
  end.

Definition functionMessage (fname text : string)
    (fns : list PersistedFunctionDefinition) : OpenAiChatMessage :=
  {| chat := {| role := "function"; content := Some text; name := Some fname;
                functionCall := None |};
     functions := Some fns |}.

(** [responseMessage as OpenAiChatMessage] *)
Definition asOpenAiChatMessage (responseMessage : ChatMessage) : OpenAiChatMessage :=
  {| chat := responseMessage; functions := None |}.

Definition handleOpenAiFunctionCall
    (responseMessage : ChatMessage)
    (availableLlmFunctions : list ChatGptLlmFunction)
    (newMessages : ArrayRef) : M ArrayRef :=
  match functionCall responseMessage with
  | None => throw (AssertionError noFunctionCallMessage)
  | Some call =>
      let functionToCall :=
        List.find
          (λ f, bool_decide (pname (persistedFunction f) = fc_name call))
          availableLlmFunctions in
      match functionToCall with
      | Some functionToCall =>
          if isDynamic functionToCall then
            functionResponse ← function functionToCall (JStr (fc_arguments call));
            push newMessages
              [asOpenAiChatMessage responseMessage;
               functionMessage (fn_name functionToCall)
                 match functionResponse with
                 | UValue (JStr s) => s
                 | _ => JSON_stringify w functionResponse
                 end
                 (persistedFunction <$> availableLlmFunctions)];;
            mret newMessages
          else if bool_decide (fn_name functionToCall = find_api_spec_action) then
            args ← match JSON_parse w (fc_arguments call) with
                   | Some v => mret v
                   | None => throw (SyntaxError "Unexpected token in JSON")
                   end;
            functionResponse ← function functionToCall args;
            apiSpecActions ← asFunctionDefinitions functionResponse;
            push newMessages
              [asOpenAiChatMessage responseMessage;
               functionMessage (fn_name functionToCall)
                 (foundFunctionsContent apiSpecActions)
                 ((persistedFunction <$> availableLlmFunctions) ++ apiSpecActions)];;
            mret newMessages
          else mret newMessages
      | None => mret newMessages
      end
  end.

(** ** One turn *)

Record OpenAiApiChatParams : Type := {
  deploymentName : string;
  systemPromptPersonality : string;
  maxNumDynamicFunctions : option Z;
}.

Record ApiChatLlmAnswerAwaitedParams : Type := {
  query : option string;
  messages : ArrayRef;
  options : JsValue;
  staticHttpRequestArgs : option HttpRequestArgs;
  apiCredentials : HttpApiCredentials;
}.

Context (params : OpenAiApiChatParams).

(** [maxNumDynamicFunctions = 3] in the parameter list. *)
Definition maxNumDynamic : Z := default 3 (maxNumDynamicFunctions params).

Definition baseSystemPrompt : string :=
  systemPromptPersonality params +:+ nl
  +:+ "  Use the find_api_spec_action function to find an action in the API spec when the user asks you to perform an action."
  +:+ nl
  +:+ "  If none of the available functions match the user's query, use this function."
  +:+ nl
  +:+ "  Before performing an action, ask the user for any missing required parameters."
  +:+ nl
  +:+ "  Before performing a POST, DELETE, PUT, or PATCH function, ask the user to confirm that they want to perform the action."
  +:+ nl +:+ "  ".

Definition undefinedFunctionsMessage : string :=
  "Cannot read properties of undefined (reading 'functions')".

(** [messages[messages.length - 1].functions ?? []] *)
Definition lastFunctions (msgs : list OpenAiChatMessage)
    : M (list PersistedFunctionDefinition) :=
  match last msgs with
  | Some m => mret (default [] (functions m))
  | None => throw (TypeError undefinedFunctionsMessage)
  end.

Definition answerAwaited (p : ApiChatLlmAnswerAwaitedParams) : M ArrayRef :=
  msgs ← readArray (messages p);
  carried ← lastFunctions msgs;
  let availableLlmFunctions :=
    makeAvailableLlmFunctionsFromFunctionDefinitions carried baseFunctions
      (default emptyHttpRequestArgs (staticHttpRequestArgs p))
      maxNumDynamic (apiCredentials p) in
  newMessages ←
    updateConversationWithNewSystemPrompt baseSystemPrompt availableLlmFunctions
      (messages p) (query p) (staticHttpRequestArgs p);
  let messageOptions :=
    {| mo_options := options p;
       mo_functions :=
         (λ f, definition (persistedFunction f)) <$> availableLlmFunctions;
       mo_functionCall := "auto" |} in
  current ← readArray newMessages;
  let messagesForOpenAi := chat <$> current in
  response ←
    await (EvGetChatCompletions (deploymentName params) messagesForOpenAi messageOptions)
      (getChatCompletions w (deploymentName params) messagesForOpenAi messageOptions);
  responseMessage ← getChatMessageFromOpenAiResponse response;
  match functionCall responseMessage with
  | Some _ =>
      handleOpenAiFunctionCall responseMessage availableLlmFunctions newMessages
  | None =>
      push newMessages
        [{| chat := responseMessage;
            functions := Some (persistedFunction <$> availableLlmFunctions) |}];;
      mret newMessages
  end.

End Orchestrator.

(** The names under which the functions of a window are looked up. *)
Definition toolNames (fns : list ChatGptLlmFunction) : list string :=
  (λ f, pname (persistedFunction f)) <$> fns.

(** The names of the functions offered to the completion service, one
    list per recorded request. *)
Definition offeredFunctions (tr : list Event) : list (list string) :=
  omap (λ ev, match ev with
              | EvGetChatCompletions _ _ opts => Some (fd_name <$> mo_functions opts)
              | _ => None
              end) tr.

(** The arguments handed to the downstream API, one per recorded call. *)
Definition downstreamArguments (tr : list Event) : list JsValue :=
  omap (λ ev, match ev with
              | EvExecuteHttpApiRequest _ _ _ dynamicHttpRequestArgs _ =>
                  Some dynamicHttpRequestArgs
              | _ => None
              end) tr.

(** The definitions carried by the last message of an array. *)
Definition carriedBy (σ : State) (r : ArrayRef)
    : option (list PersistedFunctionDefinition) :=
  match last (default [] (heap σ !! r)) with
  | Some m => functions m
  | None => None
  end.

(** The roles of the messages of an array. *)
Definition rolesOf (σ : State) (r : ArrayRef) : list string :=
  (λ m, role (chat m)) <$> default [] (heap σ !! r).

(** The UTF-8 bytes of the white space and line terminator code points
    of ECMAScript, written out. *)
Definition whiteSpaceCodePoints : list string :=
  [String "009" ""; String "010" ""; String "011" ""; String "012" "";
   String "013" ""; String "032" "";
   String "194" (String "160" "");
   String "225" (String "154" (String "128" ""));
   String "226" (String "128" (String "128" ""));
   String "226" (String "128" (String "129" ""));
   String "226" (String "128" (String "130" ""));
   String "226" (String "128" (String "131" ""));
   String "226" (String "128" (String "132" ""));
   String "226" (String "128" (String "133" ""));
   String "226" (String "128" (String "134" ""));
   String "226" (String "128" (String "135" ""));
   String "226" (String "128" (String "136" ""));
   String "226" (String "128" (String "137" ""));
   String "226" (String "128" (String "138" ""));
   String "226" (String "128" (String "168" ""));
   String "226" (String "128" (String "169" ""));
   String "226" (String "128" (String "175" ""));
   String "226" (String "129" (String "159" ""));
   String "227" (String "128" (String "128" ""));
   String "239" (String "187" (String "191" ""))]%char.

(** An ASCII byte that is not white space. *)
Definition plain (c : ascii) : bool :=
  negb (Ascii.is_space c) && (N_of_ascii c <? 128)%N.

(** [pre ++ s ++ post] for some [pre] and [post]. *)
Definition occursIn (s text : string) : Prop :=
  ∃ pre post, text = pre +:+ s +:+ post.

(** * The claims as the specification words them *)

(** The positions of a list at which [keep] holds, by index. *)
Definition keepIndexed {A} (keep : nat → A → bool) (l : list A) : list A :=
  omap id (imap (λ i x, if keep i x then Some x else None) l).

(** Deduplication by name, first occurrence kept: an element stays iff no
    element before it has its name. *)
Definition dedupFirstByName (l : list PersistedFunctionDefinition)
    : list PersistedFunctionDefinition :=
  keepIndexed (λ i x, negb (bool_decide (pname x ∈ pname <$> take i l))) l.

(** [computeActiveTools(lastActiveTools, baseTools, maxDynamic)] of the
    specification: the merge, and when more tools are carried than
    [maxDynamic], the pass over the reversed merge in which the tool at
    counter value [counter] is included iff [counter <= maxDynamic] or it
    is not a base tool. *)
Definition computeActiveTools
    (lastActiveTools baseTools : list PersistedFunctionDefinition)
    (maxDynamic : Z) : list PersistedFunctionDefinition :=
  let merged := dedupFirstByName (baseTools ++ lastActiveTools) in
  if bool_decide (maxDynamic < Z.of_nat (length lastActiveTools))
  then
    reverse
      (keepIndexed
         (λ counter tool,
            bool_decide (Z.of_nat counter ≤ maxDynamic
                         ∨ pname tool ∉ pname <$> baseTools))
         (reverse merged))
  else merged.

(** * Scenarios *)

Definition toolNamed (n verb resource : string) : PersistedFunctionDefinition :=
  {| definition := {| fd_name := n; fd_description := None; fd_parameters := JNull |};
     httpVerb := Some verb; path := Some resource |}.

Definition getWeather : PersistedFunctionDefinition :=
  toolNamed "getWeather" "GET" "/weather".
Definition bookFlight : PersistedFunctionDefinition :=
  toolNamed "bookFlight" "POST" "/flights".
Definition listHotels : PersistedFunctionDefinition :=
  toolNamed "listHotels" "GET" "/hotels".
Definition rentCar : PersistedFunctionDefinition :=
  toolNamed "rentCar" "POST" "/cars".

Definition findApiSpecActionPersisted : PersistedFunctionDefinition :=
  {| definition := findApiSpecActionDefinition; httpVerb := None; path := None |}.

(** [{"query":"travel"}] and [{"city":"Paris"}] as the model sends them. *)
Definition travelArguments : string :=
  "{" +:+ dquote +:+ "query" +:+ dquote +:+ ":" +:+ dquote +:+ "travel" +:+ dquote +:+ "}".
Definition parisArguments : string :=
  "{" +:+ dquote +:+ "city" +:+ dquote +:+ ":" +:+ dquote +:+ "Paris" +:+ dquote +:+ "}".

Definition assistantSays (text : string) : ChatMessage :=
  {| role := "assistant"; content := Some text; name := None; functionCall := None |}.

Definition assistantCalls (fname arguments : string) : ChatMessage :=
  {| role := "assistant"; content := None; name := None;
     functionCall := Some {| fc_name := fname; fc_arguments := arguments |} |}.

(** A world for the scenarios: the completion service answers by the
    content of the last message it is sent, the catalog knows two tools
    for the query [travel], the downstream API answers with the arguments
    it was given. *)
Definition scenarioWorld : World :=
  {| getChatCompletions := λ _ msgs _,
       match content <$> last msgs with
       | Some (Some "hi") =>
           Fulfilled {| choices := [{| message := Some (assistantSays "Hello!") |}] |}
       | Some (Some "travel") =>
           Fulfilled {| choices :=
             [{| message := Some (assistantCalls find_api_spec_action travelArguments) |}] |}
       | Some (Some "weather in Paris") =>
           Fulfilled {| choices :=
             [{| message := Some (assistantCalls "getWeather" parisArguments) |}] |}
       | Some (Some "cancel my order") =>
           Fulfilled {| choices :=
             [{| message := Some (assistantCalls "cancelOrder" "{}") |}] |}
       | Some (Some "empty choice") =>
           Fulfilled {| choices := [{| message := None |}] |}
       | _ => Fulfilled {| choices := [] |}
       end;
     executeHttpApiRequest := λ _ _ _ dynamicHttpRequestArgs _,
       Fulfilled dynamicHttpRequestArgs;
     findApiSpecFunctionDefinition := λ arg,
       match arg with
       | JObj [("query", JStr "travel")] => Fulfilled [getWeather; bookFlight]
       | _ => Fulfilled []
       end;
     JSON_parse := λ s,
       if bool_decide (s = travelArguments) then Some (JObj [("query", JStr "travel")])
       else if bool_decide (s = parisArguments) then Some (JObj [("city", JStr "Paris")])
       else if bool_decide (s = "{}") then Some (JObj [])
       else None;
     JSON_stringify := λ _, "[object Object]";
     yaml_stringify := λ v,
       match v with
       | JObj [(k, JStr x)] => k +:+ ": " +:+ x +:+ nl
       | _ => ""
       end |}.

(** The same world with a completion service that returns no choice. *)
Definition silentWorld : World :=
  {| getChatCompletions := λ _ _ _, Fulfilled {| choices := [] |};
     executeHttpApiRequest := executeHttpApiRequest scenarioWorld;
     findApiSpecFunctionDefinition := findApiSpecFunctionDefinition scenarioWorld;
     JSON_parse := JSON_parse scenarioWorld;
     JSON_stringify := JSON_stringify scenarioWorld;
     yaml_stringify := yaml_stringify scenarioWorld |}.

Definition scenarioParams : OpenAiApiChatParams :=
  {| deploymentName := "gpt"; systemPromptPersonality := "You are helpful.";
     maxNumDynamicFunctions := None |}.

(** A conversation of one message that carries the given definitions. *)
Definition carrying (fns : option (list PersistedFunctionDefinition))
    : list OpenAiChatMessage :=
  [{| chat := assistantSays "How can I help?"; functions := fns |}].

(** A turn with the query [text] on the conversation in the array
    [conversation]. *)
Definition turnOn (conversation : ArrayRef) (text : string)
    : ApiChatLlmAnswerAwaitedParams :=
  {| query := Some text; messages := conversation; options := JNull;
     staticHttpRequestArgs := None; apiCredentials := JStr "secret" |}.

Definition turn (text : string) : ApiChatLlmAnswerAwaitedParams := turnOn 0%nat text.

Definition startingFrom (msgs : list OpenAiChatMessage) : State :=
  {| heap := [msgs]; trace := [] |}.

Definition sharedNameBase : list PersistedFunctionDefinition :=
  [{| definition := findApiSpecActionDefinition; httpVerb := None; path := None |}].

Definition sharedNameCarried : list PersistedFunctionDefinition :=
  [{| definition :=
        {| fd_name := "getWeather"; fd_description := None; fd_parameters := JNull |};
      httpVerb := Some "GET"; path := Some "/weather" |};
   {| definition :=
        {| fd_name := find_api_spec_action; fd_description := Some "an impostor";
           fd_parameters := JNull |};
      httpVerb := Some "POST"; path := Some "/search" |}].

(** [rewrite(priorMessages, newSystemPrompt, newUserQuery)] of the
    specification: the system message, the prior messages that are not
    system messages, and one trailing user message when a query is
    provided. *)
Definition rewrite (priorMessages : list OpenAiChatMessage)
    (newSystemPrompt : string) (newUserQuery : option string)
    : list OpenAiChatMessage :=
  [systemMessage newSystemPrompt]
  ++ filter (λ m, role (chat m) ≠ "system") priorMessages
  ++ match newUserQuery with
     | Some q => [userMessage q]
     | None => []
     end.

(** The same with the trailing user message only for a query that is
    provided and not the empty string. *)
Definition rewriteNonEmpty (priorMessages : list OpenAiChatMessage)
    (newSystemPrompt : string) (newUserQuery : option string)
    : list OpenAiChatMessage :=
  rewrite priorMessages newSystemPrompt
    match newUserQuery with
    | Some "" => None
    | other => other
    end.

(** * The conversation service of the chat UI *)

Module ConversationService.

(** [getUrl]: the server URL followed by a path that starts with a slash. *)
Definition getUrl (serverUrl path : string) : Outcome string :=
  if negb (String.prefix "/" path)
  then Thrown (Error ("Invalid path: " +:+ path
                      +:+ " - ConversationService paths must start with /"))
  else Returned (serverUrl +:+ path).

(** The paths the three methods build. *)
Definition createConversationPath : string := "/conversations".

Definition addMessagePath (conversationId : string) : string :=
  "/conversations/" +:+ conversationId +:+ "/messages".

Definition rateMessagePath (conversationId messageId : string) : string :=
  "/conversations/" +:+ conversationId +:+ "/messages/" +:+ messageId +:+ "/rating}".

End ConversationService.

(** * The mock generator of conversation data *)

Module Mock.

Record Message : Type := { content : string; role : string }.

(** A test case; [messages] is [None] when [data.messages] is not an
    array. *)
Record TestCase : Type := {
  name : string;
  messages : option (list Message);
}.

Record GeneratedData : Type := {
  _id : nat;
  commandRunId : nat;
  type : string;
  data : list Message;
}.

Record Generated : Type := {
  generatedData : list GeneratedData;
  failedCases : list TestCase;
}.

Definition testMessage : Message :=
  {| content := "This is a test message"; role := "assistant" |}.

Section Generator.

(** [isConversationTestCase] and [TRIGGER_SERVER_ERROR_MESSAGE] are
    declared in other files. *)
Context (isConversationTestCase : TestCase → bool)
        (TRIGGER_SERVER_ERROR_MESSAGE : string).

(** The second [.filter]: its callback asserts that the messages are an
    array, reads the content of the first one, and pushes the test case
    to [failedCases] when that is the trigger. *)
Fixpoint filterNotFailed (failedCases : list TestCase) (l : list TestCase)
    : Outcome (list TestCase * list TestCase) :=
  match l with
  | [] => Returned ([], failedCases)
  | testCase :: rest =>
      match messages testCase with
      | None => Thrown (AssertionError "something is wrong here")
      | Some [] =>
          Thrown (TypeError "Cannot read properties of undefined (reading 'content')")
      | Some (first :: _) =>
          let isFailed :=
            bool_decide (content first = TRIGGER_SERVER_ERROR_MESSAGE) in
          if isFailed
          then filterNotFailed (failedCases ++ [testCase]) rest
          else
            match filterNotFailed failedCases rest with
            | Returned (kept, failed) => Returned (testCase :: kept, failed)
            | Thrown e => Thrown e
            end
      end
  end.

(** [mockGenerateDataFunc]; [nextId] is the number of object ids made so
    far, [new ObjectId()] is the next number. *)
Definition mockGenerateDataFunc (runId : nat) (testCases : list TestCase)
    (nextId : nat) : Outcome Generated :=
  match filterNotFailed []
          (List.filter (λ testCase, isConversationTestCase testCase) testCases) with
  | Thrown e => Thrown e
  | Returned (kept, failed) =>
      Returned
        {| generatedData :=
             imap
               (λ i testCase,
                  {| _id := nextId + i;
                     commandRunId := runId;
                     type := "conversation";
                     data := default [] (messages testCase) ++ [testMessage] |})
               kept;
           failedCases := failed |}
  end.

(** The first message of a test case is the trigger. *)
Definition triggers (testCase : TestCase) : bool :=
  match messages testCase with
  | Some (first :: _) => bool_decide (content first = TRIGGER_SERVER_ERROR_MESSAGE)
  | _ => false
  end.

(** The messages of a test case are an array that is not empty. *)
Definition hasFirstMessage (testCase : TestCase) : bool :=
  match messages testCase with
  | Some (_ :: _) => true
  | _ => false
  end.

End Generator.

Definition greeting : TestCase :=
  {| name := "greeting";
     messages := Some [{| content := "hello"; role := "user" |}] |}.
Definition outage : TestCase :=
  {| name := "outage";
     messages := Some [{| content := "boom"; role := "user" |};
                       {| content := "again"; role := "user" |}] |}.
Definition blank : TestCase := {| name := "blank"; messages := Some [] |}.
Definition broken : TestCase := {| name := "broken"; messages := None |}.
Definition quiz : TestCase := {| name := "quiz"; messages := None |}.

(** In the scenarios every test case but [quiz] is a conversation test
    case. *)
Definition isConversation (testCase : TestCase) : bool :=
  negb (bool_decide (name testCase = "quiz")).

End Mock.

(** * The window of available functions: proofs *)

Lemma keepIndexed_cons {A} (keep : nat → A → bool) x l :
  keepIndexed keep (x :: l) =
  (if keep 0%nat x then [x] else []) ++ keepIndexed (λ i, keep (S i)) l.
Proof.
  unfold keepIndexed. rewrite imap_cons. simpl.
  destruct (keep 0%nat x); reflexivity.
Qed.

Lemma keepIndexed_ext {A} (k1 k2 : nat → A → bool) l :
  (∀ i x, l !! i = Some x → k1 i x = k2 i x) →
  keepIndexed k1 l = keepIndexed k2 l.
Proof.
  revert k1 k2. induction l as [|y l IH]; intros k1 k2 Hk; [reflexivity|].
  rewrite !keepIndexed_cons. rewrite (Hk 0%nat y eq_refl).
  f_equal. apply IH. intros i x Hi. apply (Hk (S i) x Hi).
Qed.

(** The filter with the growing set keeps exactly the elements whose name
    is neither in the set at the start nor carried by an earlier element. *)
Lemma filterUnique_keepIndexed seen pre l :
  (∀ n, n ∈ seen ↔ n ∈ pname <$> pre) →
  filterUnique seen l =
  keepIndexed (λ i x, negb (bool_decide (pname x ∈ pname <$> (pre ++ take i l)))) l.
Proof.
  revert seen pre. induction l as [|x l IH]; intros seen pre Hseen; [reflexivity|].
  rewrite keepIndexed_cons. simpl take. rewrite app_nil_r. simpl filterUnique.
  assert (Htail : ∀ seen',
    (∀ n, n ∈ seen' ↔ n ∈ pname <$> (pre ++ [x])) →
    filterUnique seen' l =
    keepIndexed
      (λ i y, negb (bool_decide (pname y ∈ pname <$> (pre ++ x :: take i l)))) l).
  { intros seen' Hseen'. rewrite (IH seen' (pre ++ [x]) Hseen').
    apply keepIndexed_ext. intros i y _. by rewrite <- app_assoc. }
  destruct (decide (pname x ∈ seen)) as [Hin|Hnotin].
  - rewrite bool_decide_true; [|exact (proj1 (Hseen _) Hin)]. simpl.
    apply Htail. intros n. rewrite fmap_app, elem_of_app. simpl.
    rewrite list_elem_of_singleton. pose proof (Hseen n) as Hn.
    split; [tauto|]. intros [?| ->]; [tauto|exact Hin].
  - rewrite bool_decide_false;
      [|exact (λ Hx, Hnotin (proj2 (Hseen _) Hx))].
    simpl. f_equal.
    apply Htail. intros n.
    rewrite fmap_app, elem_of_app, elem_of_union, elem_of_singleton.
    simpl. rewrite list_elem_of_singleton. pose proof (Hseen n) as Hn. tauto.
Qed.

Lemma availableFunctionsCopy_dedup D B :
  availableFunctionsCopy D B = dedupFirstByName (B ++ D).
Proof.
  unfold availableFunctionsCopy, dedupFirstByName.
  rewrite (filterUnique_keepIndexed ∅ []); [reflexivity|].
  intros n. simpl. rewrite elem_of_nil. set_solver.
Qed.

(** The filter with the counter keeps the element at index [i] iff the
    counter value [c + i] passes the test. *)
Lemma filterCounter_keepIndexed B max c l :
  filterCounter B max c l =
  keepIndexed
    (λ i x, bool_decide (c + Z.of_nat i ≤ max ∨ pname x ∉ pname <$> B)) l.
Proof.
  revert c. induction l as [|x l IH]; intros c; [reflexivity|].
  rewrite keepIndexed_cons. simpl filterCounter. rewrite IH.
  assert (Hhead :
    (c <=? max) || negb (isBaseFunction B x) =
    bool_decide (c + Z.of_nat 0 ≤ max ∨ pname x ∉ pname <$> B)).
  { unfold isBaseFunction. rewrite Z.add_0_r.
    destruct (Z.leb_spec c max); repeat case_bool_decide; simpl;
      try reflexivity; exfalso; intuition lia. }
  rewrite Hhead.
  assert (Htail :
    keepIndexed
      (λ i y, bool_decide (c + 1 + Z.of_nat i ≤ max ∨ pname y ∉ pname <$> B)) l =
    keepIndexed
      (λ i y, bool_decide (c + Z.of_nat (S i) ≤ max ∨ pname y ∉ pname <$> B)) l).
  { apply keepIndexed_ext. intros i y _.
    replace (c + 1 + Z.of_nat i) with (c + Z.of_nat (S i)) by lia. reflexivity. }
  rewrite Htail.
  destruct (bool_decide (c + Z.of_nat 0 ≤ max ∨ pname x ∉ pname <$> B)); reflexivity.
Qed.

(** C1. For every carried list, base list and cap,
    [getMaxAvailableFunctionDefinitions] is the [computeActiveTools] of the
    specification: when more tools are carried than the cap, the
    deduplicated merge is walked in reverse with a counter from 0 that
    grows at every tool, a tool being kept iff the counter is at most the
    cap or the tool is not a base tool, and the result is reversed back;
    otherwise the deduplicated merge is returned as it is. *)
Theorem getMaxAvailableFunctionDefinitions_computeActiveTools
    (D B : list PersistedFunctionDefinition) (maxDynamic : Z) :
  getMaxAvailableFunctionDefinitions D B maxDynamic = computeActiveTools D B maxDynamic.
Proof.
  unfold getMaxAvailableFunctionDefinitions, computeActiveTools.
  rewrite availableFunctionsCopy_dedup.
  destruct (Z.ltb_spec maxDynamic (Z.of_nat (length D))) as [Hlt|Hge].
  - rewrite bool_decide_true by done.
    rewrite filterCounter_keepIndexed. f_equal.
  - rewrite bool_decide_false by lia. reflexivity.
Qed.

(** The tools of a given name that survive the filter with the growing set:
    none when the name is already in the set, else the first one of the
    list. *)
Lemma filter_name_filterUnique (n : string) seen l :
  filter (λ f, pname f = n) (filterUnique seen l) =
  if decide (n ∈ seen) then []
  else option_list (snd <$> list_find (λ f, pname f = n) l).
Proof.
  revert seen. induction l as [|x l IH]; intros seen.
  { simpl. by destruct (decide (n ∈ seen)). }
  simpl filterUnique. cbn [list_find].
  destruct (decide (pname x ∈ seen)) as [Hin|Hnotin].
  - rewrite IH. destruct (decide (n ∈ seen)) as [|Hn]; [done|].
    destruct (decide (pname x = n)) as [Heq|Hne]; [by subst n|].
    by destruct (list_find _ l) as [[i y]|].
  - destruct (decide (pname x = n)) as [Heq|Hne].
    + subst n. rewrite filter_cons_True by done. rewrite IH.
      rewrite decide_True by set_solver.
      rewrite decide_False by done. done.
    + rewrite filter_cons_False by done. rewrite IH.
      destruct (decide (n ∈ seen)) as [Hn|Hn].
      * rewrite decide_True by set_solver. done.
      * rewrite decide_False;
          [|intros [Hx%elem_of_singleton|Hx]%elem_of_union; congruence].
        by destruct (list_find _ l) as [[i y]|].
Qed.

(** The tools of a base name in the merge: the first one of the base
    list, alone. *)
Lemma availableFunctionsCopy_first_of_base B D n :
  n ∈ pname <$> B →
  ∃ i b,
    list_find (λ f, pname f = n) B = Some (i, b)
    ∧ filter (λ f, pname f = n) (availableFunctionsCopy D B) = [b].
Proof.
  intros HB.
  apply list_elem_of_fmap in HB as (b0 & Hn & Hb0).
  destruct (list_find (λ f, pname f = n) B) as [[i b]|] eqn:Hfind.
  - exists i, b. split; [done|].
    unfold availableFunctionsCopy. rewrite filter_name_filterUnique.
    rewrite decide_False by apply not_elem_of_empty.
    apply list_find_Some in Hfind as (Hi & Hb & Hfirst).
    assert (list_find (λ f, pname f = n) (B ++ D) = Some (i, b)) as ->; [|done].
    apply list_find_app_Some. left. by apply list_find_Some.
  - apply list_find_None in Hfind.
    rewrite Forall_forall in Hfind. by destruct (Hfind b0 Hb0).
Qed.

(** * Running computations *)

Lemma bind_returned {A B} (c : M A) (k : A → M B) (σ : State) (a : A) (σ' : State) :
  c σ = (Returned a, σ') → (c ≫= k) σ = k a σ'.
Proof. intros Hc. unfold mbind, M_bind. by rewrite Hc. Qed.

Lemma bind_thrown {A B} (c : M A) (k : A → M B) (σ : State) (e : Exn) (σ' : State) :
  c σ = (Thrown e, σ') → (c ≫= k) σ = (Thrown e, σ').
Proof. intros Hc. unfold mbind, M_bind. by rewrite Hc. Qed.

(** * The dispatch of a function call: proofs *)

Section Dispatch.

Context (w : World).

Lemma find_no_match (call : FunctionCall) (avail : list ChatGptLlmFunction) :
  fc_name call ∉ toolNames avail →
  List.find (λ f, bool_decide (pname (persistedFunction f) = fc_name call)) avail = None.
Proof.
  unfold toolNames.
  induction avail as [|f avail IH]; intros Hne; [reflexivity|].
  rewrite fmap_cons, not_elem_of_cons in Hne. destruct Hne as [Hf Hne].
  simpl. rewrite bool_decide_false by done. by apply IH.
Qed.

(** C3. When the requested name matches no function of the active set, the
    dispatch returns the very array it was given, pushes nothing to it,
    calls nobody and throws nothing. *)
Theorem handleOpenAiFunctionCall_unmatched
    (responseMessage : ChatMessage) (call : FunctionCall)
    (availableLlmFunctions : list ChatGptLlmFunction)
    (newMessages : ArrayRef) (σ : State) :
  functionCall responseMessage = Some call →
  fc_name call ∉ toolNames availableLlmFunctions →
  handleOpenAiFunctionCall w responseMessage availableLlmFunctions newMessages σ
  = (Returned newMessages, σ).
Proof.
  intros Hcall Hne. unfold handleOpenAiFunctionCall.
  rewrite Hcall, (find_no_match call availableLlmFunctions Hne). reflexivity.
Qed.

Lemma string_app_assoc (a b c : string) : (a +:+ b) +:+ c = a +:+ b +:+ c.
Proof.
  induction a as [|x a IH]; [reflexivity|].
  change (String x ((a +:+ b) +:+ c) = String x (a +:+ b +:+ c)). by rewrite IH.
Qed.

Lemma string_app_nil_r (a : string) : a +:+ "" = a.
Proof.
  induction a as [|x a IH]; [reflexivity|].
  change (String x (a +:+ "") = String x a). by rewrite IH.
Qed.

Lemma occursIn_prepend s pre text : occursIn s text → occursIn s (pre +:+ text).
Proof.
  intros (p & q & ->). exists (pre +:+ p), q. by rewrite string_app_assoc.
Qed.

Lemma occursIn_append s post text : occursIn s text → occursIn s (text +:+ post).
Proof.
  intros (p & q & ->). exists p, (q +:+ post). by rewrite !string_app_assoc.
Qed.

(** Every joined string occurs in the join. *)
Lemma occursIn_join sep (l : list string) s : s ∈ l → occursIn s (join sep l).
Proof.
  induction l as [|x l IH]; intros Hs; [by apply elem_of_nil in Hs|].
  apply elem_of_cons in Hs as [->|Hs].
  - destruct l as [|y l].
    + exists "", "". by rewrite string_app_nil_r.
    + exists "", (sep +:+ join sep (y :: l)). reflexivity.
  - destruct l as [|y l]; [by apply elem_of_nil in Hs|].
    change (join sep (x :: y :: l)) with (x +:+ sep +:+ join sep (y :: l)).
    do 2 apply occursIn_prepend. by apply IH.
Qed.

Lemma foundFunctionsContent_names found d :
  d ∈ found → occursIn (pname d) (foundFunctionsContent found).
Proof.
  intros Hd. unfold foundFunctionsContent.
  destruct found as [|d0 found]; [by apply elem_of_nil in Hd|].
  cbn [length Nat.ltb Nat.leb].
  do 3 apply occursIn_prepend. apply occursIn_append.
  apply occursIn_join. by apply list_elem_of_fmap_2.
Qed.

(** A joined list followed by a text, element by element. *)
Lemma join_foldr (sep : string) (x : string) (l : list string) (suffix : string) :
  join sep (x :: l) +:+ suffix
  = x +:+ foldr (λ y acc, sep +:+ y +:+ acc) suffix l.
Proof.
  revert x. induction l as [|y l IH]; intros x; [reflexivity|].
  change (join sep (x :: y :: l)) with (x +:+ sep +:+ join sep (y :: l)).
  by rewrite !string_app_assoc, IH.
Qed.

(** C4. A dispatch of the reserved catalog-search tool (the call resolves
    to it, its arguments parse, the catalog answers with [found]) returns
    the array it was given with exactly two messages pushed. The first is
    the response message of the model as it is, with no functions. The
    second has the role [function] and the name [find_api_spec_action];
    its content is the nothing-found sentence when [found] is empty and
    otherwise the heading, one line [- name] for each tool found, in
    order, an empty line and the closing sentence; its functions are the
    definitions of the current window followed by the tools found (a
    concatenation: every definition of either list is in it, and a
    definition of both is in it twice). *)
Theorem handleOpenAiFunctionCall_find_api_spec_action
    (responseMessage : ChatMessage) (call : FunctionCall)
    (availableLlmFunctions : list ChatGptLlmFunction)
    (newMessages : ArrayRef) (σ : State)
    (args : JsValue) (found : list PersistedFunctionDefinition) :
  functionCall responseMessage = Some call →
  List.find (λ f, bool_decide (pname (persistedFunction f) = fc_name call))
    availableLlmFunctions = Some (makeFindApiSpecAction w) →
  JSON_parse w (fc_arguments call) = Some args →
  findApiSpecFunctionDefinition w args = Fulfilled found →
  let echo : OpenAiChatMessage :=
    {| chat := responseMessage; functions := None |} in
  let text : string :=
    match found with
    | [] =>
        "No function found in the API spec. Try asking the user for more information."
    | first :: others =>
        "Found the following function(s) to use:"
        +:+ String "010" "- " +:+ fd_name (definition first)
        +:+ foldr
              (λ d rest, String "010" "- " +:+ fd_name (definition d) +:+ rest)
              (String "010"
                 (String "010"
                    "They have been added to your set of available functions. Execute the function if you have sufficient data. If you need more data, ask the user for it."))
              others
    end in
  let result : OpenAiChatMessage :=
    {| chat := {| role := "function";
                  content := Some text;
                  name := Some "find_api_spec_action";
                  functionCall := None |};
       functions :=
         Some ((persistedFunction <$> availableLlmFunctions) ++ found) |} in
  handleOpenAiFunctionCall w responseMessage availableLlmFunctions newMessages σ
  = (Returned newMessages,
     {| heap := alter (λ l, l ++ [echo; result]) newMessages (heap σ);
        trace := trace σ ++ [EvFindApiSpecFunctionDefinition args] |})
  ∧ (∀ msgs, heap σ !! newMessages = Some msgs →
       alter (λ l, l ++ [echo; result]) newMessages (heap σ) !! newMessages
       = Some (msgs ++ [echo; result]))
  ∧ (∀ i a, i ≠ newMessages →
       alter (λ l, l ++ [echo; result]) newMessages (heap σ) !! i = a ↔ heap σ !! i = a)
  ∧ (∀ d, d ∈ (persistedFunction <$> availableLlmFunctions) ++ found
          ↔ d ∈ persistedFunction <$> availableLlmFunctions ∨ d ∈ found)
  ∧ (∀ d, d ∈ found →
       ∃ before after, text = before +:+ fd_name (definition d) +:+ after).
Proof.
  intros Hcall Hfind Hparse Hfound echo text result.
  assert (Htext : foundFunctionsContent found = text).
  { unfold foundFunctionsContent, text. destruct found as [|first others];
      [reflexivity|].
    cbn [length Nat.ltb Nat.leb]. rewrite fmap_cons.
    rewrite (join_foldr (nl +:+ "- ") (pname first) (pname <$> others)).
    rewrite foldr_fmap. reflexivity. }
  split; [|split; [|split; [|split]]].
  - unfold handleOpenAiFunctionCall. rewrite Hcall, Hfind.
    change (isDynamic (makeFindApiSpecAction w)) with false. cbv iota.
    rewrite bool_decide_true by reflexivity. rewrite Hparse.
    unfold mbind, M_bind, mret, M_ret. cbn [function makeFindApiSpecAction].
    unfold mbind, M_bind, mret, M_ret, await. rewrite Hfound.
    cbn [settle asFunctionDefinitions push fn_name makeFindApiSpecAction].
    unfold mret, M_ret, push, functionMessage, asOpenAiChatMessage.
    rewrite Htext. reflexivity.
  - intros msgs Hmsgs. rewrite list_lookup_alter_eq, Hmsgs. reflexivity.
  - intros i a Hi. by rewrite list_lookup_alter_ne.
  - intros d. apply elem_of_app.
  - intros d Hd. rewrite <- Htext.
    exact (foundFunctionsContent_names found d Hd).
Qed.

(** The dispatch of a dynamic HTTP tool of the window: the downstream call
    gets the verb and the path of the definition, the static arguments,
    the credentials, and the arguments of the model as the string they
    came in; two messages are pushed, the echo and the function message
    with the response and the definitions of the window. *)
Lemma handleOpenAiFunctionCall_dynamic
    (responseMessage : ChatMessage) (call : FunctionCall)
    (availableLlmFunctions : list ChatGptLlmFunction)
    (newMessages : ArrayRef) (σ : State)
    (d : PersistedFunctionDefinition) (static : HttpRequestArgs)
    (credentials : HttpApiCredentials) (response : JsValue) :
  functionCall responseMessage = Some call →
  List.find (λ f, bool_decide (pname (persistedFunction f) = fc_name call))
    availableLlmFunctions
  = Some (makeDynamicHttpLlmFunctionFromFunctionDefinition w d static credentials) →
  executeHttpApiRequest w (httpVerb d) (path d) static (JStr (fc_arguments call))
    credentials = Fulfilled response →
  handleOpenAiFunctionCall w responseMessage availableLlmFunctions newMessages σ
  = (Returned newMessages,
     {| heap :=
          alter
            (λ l, l ++ [asOpenAiChatMessage responseMessage;
                        functionMessage (pname d)
                          match response with
                          | JStr s => s
                          | _ => JSON_stringify w (UValue response)
                          end
                          (persistedFunction <$> availableLlmFunctions)])
            newMessages (heap σ);
        trace :=
          trace σ ++ [EvExecuteHttpApiRequest (httpVerb d) (path d) static
                        (JStr (fc_arguments call)) credentials] |}).
Proof.
  intros Hcall Hfind Hresponse.
  unfold handleOpenAiFunctionCall. rewrite Hcall, Hfind.
  change (isDynamic (makeDynamicHttpLlmFunctionFromFunctionDefinition w d static
                       credentials)) with true.
  cbv iota.
  unfold mbind, M_bind, mret, M_ret.
  cbn [function fn_name makeDynamicHttpLlmFunctionFromFunctionDefinition].
  unfold mbind, M_bind, mret, M_ret, await. rewrite Hresponse.
  destruct response; reflexivity.
Qed.

End Dispatch.

Lemma handleOpenAiFunctionCall_unmatched_witness :
  handleOpenAiFunctionCall scenarioWorld (assistantCalls "cancelOrder" "{}")
    (makeAvailableLlmFunctionsFromFunctionDefinitions scenarioWorld
       [findApiSpecActionPersisted; getWeather] (baseFunctions scenarioWorld)
       emptyHttpRequestArgs 3 JNull)
    0%nat (startingFrom (carrying None))
  = (Returned 0%nat, startingFrom (carrying None)).
Proof.
  apply (handleOpenAiFunctionCall_unmatched scenarioWorld
           (assistantCalls "cancelOrder" "{}")
           {| fc_name := "cancelOrder"; fc_arguments := "{}" |}).
  - reflexivity.
  - apply (bool_decide_unpack _). vm_compute. exact I.
Defined.

(** The search expansion of the specification: no dynamic tool is active,
    the catalog answers [getWeather] and [bookFlight] to the query
    [travel]; the function message carries the base definition and these
    two. *)
Lemma handleOpenAiFunctionCall_find_api_spec_action_witness :
  handleOpenAiFunctionCall scenarioWorld
    (assistantCalls find_api_spec_action travelArguments)
    (baseFunctions scenarioWorld) 0%nat (startingFrom (carrying None))
  = (Returned 0%nat,
     {| heap :=
          [[{| chat := {| role := "assistant"; content := Some "How can I help?";
                          name := None; functionCall := None |};
               functions := None |};
            {| chat := {| role := "assistant"; content := None; name := None;
                          functionCall :=
                            Some {| fc_name := "find_api_spec_action";
                                    fc_arguments := travelArguments |} |};
               functions := None |};
            {| chat :=
                 {| role := "function";
                    content :=
                      Some ("Found the following function(s) to use:"
                            +:+ String "010" "- getWeather"
                            +:+ String "010" "- bookFlight"
                            +:+ String "010"
                                  (String "010"
                                     "They have been added to your set of available functions. Execute the function if you have sufficient data. If you need more data, ask the user for it."));
                    name := Some "find_api_spec_action";
                    functionCall := None |};
               functions :=
                 Some [findApiSpecActionPersisted; getWeather; bookFlight] |}]];
        trace := [EvFindApiSpecFunctionDefinition (JObj [("query", JStr "travel")])] |}).
Proof.
  destruct (handleOpenAiFunctionCall_find_api_spec_action scenarioWorld
              (assistantCalls find_api_spec_action travelArguments)
              {| fc_name := find_api_spec_action; fc_arguments := travelArguments |}
              (baseFunctions scenarioWorld) 0%nat (startingFrom (carrying None))
              (JObj [("query", JStr "travel")]) [getWeather; bookFlight])
    as (Hrun & _); [reflexivity|reflexivity|reflexivity|reflexivity|].
  exact Hrun.
Defined.

(** C5, at a dispatch of the dynamic tool [getWeather] with the arguments
    [{"city":"Paris"}]: the arguments parse to an object, yet the
    downstream call receives them as the string of the model, not as the
    parsed value; the two messages are pushed as described. *)
Theorem handleOpenAiFunctionCall_dynamic_arguments_unparsed :
  let window :=
    makeAvailableLlmFunctionsFromFunctionDefinitions scenarioWorld
      [findApiSpecActionPersisted; getWeather; bookFlight]
      (baseFunctions scenarioWorld) emptyHttpRequestArgs 3 (JStr "secret") in
  let run :=
    handleOpenAiFunctionCall scenarioWorld (assistantCalls "getWeather" parisArguments)
      window 0%nat (startingFrom (carrying None)) in
  JSON_parse scenarioWorld parisArguments = Some (JObj [("city", JStr "Paris")])
  ∧ trace (snd run)
    = [EvExecuteHttpApiRequest (Some "GET") (Some "/weather") emptyHttpRequestArgs
         (JStr parisArguments) (JStr "secret")]
  ∧ downstreamArguments (trace (snd run)) ≠ [JObj [("city", JStr "Paris")]]
  ∧ heap (snd run)
    = [carrying None
       ++ [asOpenAiChatMessage (assistantCalls "getWeather" parisArguments);
           functionMessage "getWeather" parisArguments
             [findApiSpecActionPersisted; getWeather; bookFlight]]].
Proof.
  intros window run.
  split; [reflexivity|]. split; [reflexivity|]. split; [|reflexivity].
  vm_compute. discriminate.
Qed.

(** C2, over two turns with the default cap of 3. The first turn starts
    with the base tool and two dynamic tools and searches the catalog,
    which finds two more; the function message then carries five
    definitions. In the second turn the window computed from them holds
    the four dynamic tools and not [find_api_spec_action]: the completion
    service is offered no catalog search, and its request for one is
    dropped without a message. *)
Theorem answerAwaited_evicts_find_api_spec_action :
  let carried := [findApiSpecActionPersisted; listHotels; rentCar] in
  let first :=
    answerAwaited scenarioWorld scenarioParams (turn "travel")
      (startingFrom (carrying (Some carried))) in
  let second :=
    answerAwaited scenarioWorld scenarioParams (turnOn 1%nat "travel") (snd first) in
  fst first = Returned 1%nat
  ∧ carriedBy (snd first) 1%nat = Some (carried ++ [getWeather; bookFlight])
  ∧ toolNames
      (makeAvailableLlmFunctionsFromFunctionDefinitions scenarioWorld
         (carried ++ [getWeather; bookFlight]) (baseFunctions scenarioWorld)
         emptyHttpRequestArgs (maxNumDynamic scenarioParams) (JStr "secret"))
    = ["listHotels"; "rentCar"; "getWeather"; "bookFlight"]
  ∧ offeredFunctions (trace (snd second))
    = [["find_api_spec_action"; "listHotels"; "rentCar"];
       ["listHotels"; "rentCar"; "getWeather"; "bookFlight"]]
  ∧ rolesOf (snd second) 2%nat
    = ["system"; "assistant"; "user"; "assistant"; "function"; "user"].
Proof.
  intros carried first second.
  split; [reflexivity|]. split; [reflexivity|]. split; [reflexivity|].
  split; reflexivity.
Qed.

(** * The rebuilt conversation and the prompt: proofs *)

Section Rewrite.

Context (w : World).

Lemma filter_notSystem (msgs : list OpenAiChatMessage) :
  List.filter notSystem msgs = filter (λ m, role (chat m) ≠ "system") msgs.
Proof.
  induction msgs as [|m msgs IH]; [reflexivity|].
  simpl. unfold notSystem at 1. rewrite IH.
  destruct (decide (role (chat m) = "system")) as [Heq|Hne].
  - rewrite bool_decide_true by done. simpl. by rewrite filter_cons_False by auto.
  - rewrite bool_decide_false by done. simpl. by rewrite filter_cons_True by auto.
Qed.

Lemma alter_last {A} (f : A → A) (l : list A) (x : A) :
  alter f (length l) (l ++ [x]) = l ++ [f x].
Proof.
  rewrite <- (Nat.add_0_r (length l)). by rewrite alter_app_r.
Qed.

(** What [updateConversationWithNewSystemPrompt] does to the heap: a new
    array is allocated and returned, nothing else changes. *)
Lemma updateConversationWithNewSystemPrompt_run
    (base : string) (avail : list ChatGptLlmFunction) (messages : ArrayRef)
    (query : option string) (static : option HttpRequestArgs)
    (σ : State) (prior : list OpenAiChatMessage) :
  heap σ !! messages = Some prior →
  updateConversationWithNewSystemPrompt w base avail messages query static σ
  = (Returned (length (heap σ)),
     {| heap := heap σ ++ [rewriteNonEmpty prior (makeSystemPrompt w base avail static) query];
        trace := trace σ |}).
Proof.
  intros Hprior. unfold updateConversationWithNewSystemPrompt.
  unfold mbind, M_bind, mret, M_ret, readArray, newArray, push.
  rewrite Hprior. cbn [default heap trace].
  unfold rewriteNonEmpty, rewrite. rewrite filter_notSystem.
  destruct query as [q|]; cbn [queryGiven].
  - destruct (decide (q = "")) as [->|Hq].
    + cbn. by rewrite app_nil_r.
    + rewrite bool_decide_false by done. cbn [heap trace].
      rewrite alter_last.
      destruct q as [|c q]; [done|]. reflexivity.
  - cbn. by rewrite app_nil_r.
Qed.

(** C7, amended. [updateConversationWithNewSystemPrompt] returns a new
    array that holds the new system message, then the prior messages that
    are not system messages in their order, then one user message with
    the query iff a query is provided and is not the empty string; the
    prior array is left as it was. *)
Theorem updateConversationWithNewSystemPrompt_rewriteNonEmpty
    (base : string) (avail : list ChatGptLlmFunction) (messages : ArrayRef)
    (query : option string) (static : option HttpRequestArgs)
    (σ : State) (prior : list OpenAiChatMessage) :
  heap σ !! messages = Some prior →
  ∃ (currentMessages : ArrayRef) (σ' : State),
    updateConversationWithNewSystemPrompt w base avail messages query static σ
    = (Returned currentMessages, σ')
    ∧ currentMessages ≠ messages
    ∧ heap σ' !! messages = Some prior
    ∧ heap σ' !! currentMessages
      = Some ([systemMessage (makeSystemPrompt w base avail static)]
              ++ filter (λ m, role (chat m) ≠ "system") prior
              ++ match query with
                 | Some q => if decide (q = "") then [] else [userMessage q]
                 | None => []
                 end)
    ∧ trace σ' = trace σ.
Proof.
  intros Hprior. eexists _, _. split.
  { by apply updateConversationWithNewSystemPrompt_run. }
  cbn [heap trace]. pose proof (lookup_lt_Some _ _ _ Hprior) as Hlt.
  split; [lia|]. split; [by rewrite lookup_app_l|]. split; [|reflexivity].
  rewrite lookup_app_r by lia. rewrite Nat.sub_diag. cbn [lookup list_lookup].
  unfold rewriteNonEmpty. destruct query as [[|c q]|]; reflexivity.
Qed.

(** C8. With no dynamic function among the current functions,
    [makeSystemPrompt] is the base prompt, followed by the context block
    when static request arguments are given and by nothing else: the
    instruction on the dynamic functions is not there. *)
Theorem makeSystemPrompt_no_dynamic
    (base : string) (currentFunctions : list ChatGptLlmFunction)
    (static : option HttpRequestArgs) :
  Forall (λ f, dynamic f ≠ Some true) currentFunctions →
  makeSystemPrompt w base currentFunctions static
  = match static with
    | Some args => base +:+ nl +:+ makeUserSystemPromptContext w args
    | None => base
    end.
Proof.
  intros Hnone. unfold makeSystemPrompt.
  assert (List.filter isDynamic currentFunctions = []) as ->; [|reflexivity].
  induction Hnone as [|f l Hf _ IH]; [reflexivity|].
  simpl. unfold isDynamic at 1.
  destruct (dynamic f) as [[|]|]; [done|exact IH|exact IH].
Qed.

End Rewrite.

(** C7 as the specification states it fails for an empty query: the query
    is provided, yet no user message is appended. *)
Lemma rewrite_empty_query_counterexample :
  let prior := carrying None in
  let run :=
    updateConversationWithNewSystemPrompt scenarioWorld "You are helpful." []
      0%nat (Some "") None (startingFrom prior) in
  fst run = Returned 1%nat
  ∧ heap (snd run) !! 1%nat
    ≠ Some (rewrite prior (makeSystemPrompt scenarioWorld "You are helpful." [] None)
              (Some ""))
  ∧ heap (snd run) !! 1%nat
    = Some (rewrite prior (makeSystemPrompt scenarioWorld "You are helpful." [] None)
              None).
Proof.
  intros prior run. split; [reflexivity|]. split; [|reflexivity].
  vm_compute. discriminate.
Qed.

Lemma updateConversationWithNewSystemPrompt_rewriteNonEmpty_witness :
  ∃ (currentMessages : ArrayRef) (σ' : State),
    updateConversationWithNewSystemPrompt scenarioWorld "You are helpful."
      (baseFunctions scenarioWorld) 0%nat (Some "hi") None
      (startingFrom (systemMessage "old prompt" :: carrying None))
    = (Returned currentMessages, σ')
    ∧ currentMessages ≠ 0%nat
    ∧ heap σ' !! 0%nat = Some (systemMessage "old prompt" :: carrying None)
    ∧ heap σ' !! currentMessages
      = Some ([systemMessage
                 (makeSystemPrompt scenarioWorld "You are helpful."
                    (baseFunctions scenarioWorld) None)]
              ++ filter (λ m, role (chat m) ≠ "system")
                   (systemMessage "old prompt" :: carrying None)
              ++ match Some "hi" with
                 | Some q => if decide (q = "") then [] else [userMessage q]
                 | None => []
                 end)
    ∧ trace σ' = trace (startingFrom (systemMessage "old prompt" :: carrying None)).
Proof.
  apply (updateConversationWithNewSystemPrompt_rewriteNonEmpty scenarioWorld
           "You are helpful." (baseFunctions scenarioWorld) 0%nat (Some "hi") None
           (startingFrom (systemMessage "old prompt" :: carrying None))
           (systemMessage "old prompt" :: carrying None)).
  reflexivity.
Defined.

Lemma makeSystemPrompt_no_dynamic_witness :
  makeSystemPrompt scenarioWorld "You are helpful." (baseFunctions scenarioWorld)
    (Some {| headers := Some (JObj [("Accept", JStr "application/json")]);
             body := None; pathParameters := None; queryParameters := None |})
  = "You are helpful." +:+ nl
    +:+ "The following information is available for you to use for calling functions:"
    +:+ nl +:+ "Headers:" +:+ nl +:+ "Accept: application/json".
Proof.
  rewrite (makeSystemPrompt_no_dynamic scenarioWorld "You are helpful."
             (baseFunctions scenarioWorld)).
  - reflexivity.
  - repeat constructor; discriminate.
Defined.

(** * One turn: proofs *)

Section Turn.

Context (w : World) (params : OpenAiApiChatParams).

(** A turn on a conversation that ends with the message [m], step by
    step: the window is computed from the functions of [m], the
    conversation is rebuilt in a new array, the completion service is
    called once, and its answer is read. *)
Lemma answerAwaited_run (p : ApiChatLlmAnswerAwaitedParams) (σ : State)
    (pre : list OpenAiChatMessage) (m : OpenAiChatMessage) :
  heap σ !! messages p = Some (pre ++ [m]) →
  let avail :=
    makeAvailableLlmFunctionsFromFunctionDefinitions w (default [] (functions m))
      (baseFunctions w) (default emptyHttpRequestArgs (staticHttpRequestArgs p))
      (maxNumDynamic params) (apiCredentials p) in
  let rebuilt :=
    rewriteNonEmpty (pre ++ [m])
      (makeSystemPrompt w (baseSystemPrompt params) avail (staticHttpRequestArgs p))
      (query p) in
  let messageOptions :=
    {| mo_options := options p;
       mo_functions := (λ f, definition (persistedFunction f)) <$> avail;
       mo_functionCall := "auto" |} in
  let newMessages := length (heap σ) in
  let asked :=
    {| heap := heap σ ++ [rebuilt];
       trace := trace σ ++ [EvGetChatCompletions (deploymentName params)
                              (chat <$> rebuilt) messageOptions] |} in
  answerAwaited w params p σ
  = match getChatCompletions w (deploymentName params) (chat <$> rebuilt)
            messageOptions with
    | RejectedWith reason => (Thrown (Rejected reason), asked)
    | Fulfilled response =>
        match choices response with
        | {| message := Some responseMessage |} :: _ =>
            match functionCall responseMessage with
            | Some _ => handleOpenAiFunctionCall w responseMessage avail newMessages asked
            | None =>
                (Returned newMessages,
                 {| heap :=
                      heap σ
                      ++ [rebuilt
                          ++ [{| chat := responseMessage;
                                 functions := Some (persistedFunction <$> avail) |}]];
                    trace := trace asked |})
            end
        | _ => (Thrown (Error "No message returned from OpenAI API"), asked)
        end
    end.
Proof.
  intros Hmsgs avail rebuilt messageOptions newMessages asked.
  unfold answerAwaited.
  rewrite (bind_returned _ _ σ (pre ++ [m]) σ);
    [|unfold readArray; by rewrite Hmsgs].
  rewrite (bind_returned _ _ σ (default [] (functions m)) σ);
    [|unfold lastFunctions; by rewrite last_snoc].
  cbv zeta. fold avail.
  rewrite (bind_returned _ _ _ _ _
             (updateConversationWithNewSystemPrompt_run w _ _ _ _ _ σ (pre ++ [m]) Hmsgs)).
  fold rebuilt.
  rewrite (bind_returned _ _ _ rebuilt {| heap := heap σ ++ [rebuilt]; trace := trace σ |});
    [|unfold readArray; cbn [heap];
      rewrite lookup_app_r by lia; by rewrite Nat.sub_diag].
  fold messageOptions.
  destruct (getChatCompletions w (deploymentName params) (chat <$> rebuilt)
              messageOptions) as [response|reason] eqn:Hanswer.
  2:{ by rewrite (bind_thrown _ _ _ (Rejected reason) asked). }
  rewrite (bind_returned _ _ _ response asked); [|done].
  unfold getChatMessageFromOpenAiResponse.
  destruct (choices response) as [|[[responseMessage|]] rest].
  - by rewrite (bind_thrown _ _ _ (Error "No message returned from OpenAI API") asked).
  - rewrite (bind_returned _ _ _ responseMessage asked); [|done].
    destruct (functionCall responseMessage) as [call|]; [reflexivity|].
    rewrite (bind_returned _ _ _ ()
               {| heap := heap σ ++ [rebuilt ++ [{| chat := responseMessage;
                    functions := Some (persistedFunction <$> avail) |}]];
                  trace := trace asked |}); [done|].
    subst asked newMessages. unfold push. cbn [heap trace]. by rewrite alter_last.
  - by rewrite (bind_thrown _ _ _ (Error "No message returned from OpenAI API") asked).
Qed.

(** The functions of a window are the base function or dynamic functions
    made from a definition. *)
Lemma window_members D static max credentials f :
  f ∈ makeAvailableLlmFunctionsFromFunctionDefinitions w D (baseFunctions w) static
        max credentials →
  f = makeFindApiSpecAction w
  ∨ ∃ d, f = makeDynamicHttpLlmFunctionFromFunctionDefinition w d static credentials.
Proof.
  unfold makeAvailableLlmFunctionsFromFunctionDefinitions.
  intros (d & -> & _)%list_elem_of_fmap.
  destruct (List.find _ (baseFunctions w)) as [b|] eqn:Hfind; [|by eauto].
  apply List.find_some in Hfind as [Hin _].
  destruct Hin as [<-|[]]. by left.
Qed.

(** The dispatch over such a window throws no TypeError. *)
Lemma handleOpenAiFunctionCall_no_TypeError
    (responseMessage : ChatMessage) (avail : list ChatGptLlmFunction)
    (newMessages : ArrayRef) (σ : State) static credentials (msg : string) :
  (∀ f, f ∈ avail →
     f = makeFindApiSpecAction w
     ∨ ∃ d, f = makeDynamicHttpLlmFunctionFromFunctionDefinition w d static credentials) →
  fst (handleOpenAiFunctionCall w responseMessage avail newMessages σ)
  ≠ Thrown (TypeError msg).
Proof.
  intros Hwindow. unfold handleOpenAiFunctionCall.
  destruct (functionCall responseMessage) as [call|]; [|discriminate].
  destruct (List.find _ avail) as [f|] eqn:Hfind; [|discriminate].
  apply List.find_some in Hfind as [Hin _]. apply list_elem_of_In in Hin.
  destruct (Hwindow f Hin) as [->|[d ->]].
  - change (isDynamic (makeFindApiSpecAction w)) with false. cbv iota.
    rewrite bool_decide_true by reflexivity.
    destruct (JSON_parse w (fc_arguments call)) as [args|]; [|discriminate].
    unfold mbind, M_bind, mret, M_ret. cbn [function makeFindApiSpecAction].
    unfold mbind, M_bind, mret, M_ret, await.
    destruct (findApiSpecFunctionDefinition w args); discriminate.
  - change (isDynamic (makeDynamicHttpLlmFunctionFromFunctionDefinition w d static
                         credentials)) with true.
    cbv iota. unfold mbind, M_bind, mret, M_ret.
    cbn [function makeDynamicHttpLlmFunctionFromFunctionDefinition].
    unfold mbind, M_bind, mret, M_ret, await.
    destruct (executeHttpApiRequest w _ _ _ _ _); discriminate.
Qed.

(** The dispatch over such a window only adds to the trace. *)
Lemma handleOpenAiFunctionCall_trace
    (responseMessage : ChatMessage) (avail : list ChatGptLlmFunction)
    (newMessages : ArrayRef) (σ : State) static credentials :
  (∀ f, f ∈ avail →
     f = makeFindApiSpecAction w
     ∨ ∃ d, f = makeDynamicHttpLlmFunctionFromFunctionDefinition w d static credentials) →
  ∃ rest,
    trace (snd (handleOpenAiFunctionCall w responseMessage avail newMessages σ))
    = trace σ ++ rest.
Proof.
  intros Hwindow. unfold handleOpenAiFunctionCall.
  destruct (functionCall responseMessage) as [call|];
    [|exists []; by rewrite app_nil_r].
  destruct (List.find _ avail) as [f|] eqn:Hfind;
    [|exists []; by rewrite app_nil_r].
  apply List.find_some in Hfind as [Hin _]. apply list_elem_of_In in Hin.
  destruct (Hwindow f Hin) as [->|[d ->]].
  - change (isDynamic (makeFindApiSpecAction w)) with false. cbv iota.
    rewrite bool_decide_true by reflexivity.
    destruct (JSON_parse w (fc_arguments call)) as [args|];
      [|exists []; by rewrite app_nil_r].
    unfold mbind, M_bind, mret, M_ret. cbn [function makeFindApiSpecAction].
    unfold mbind, M_bind, mret, M_ret, await.
    destruct (findApiSpecFunctionDefinition w args); by eexists.
  - change (isDynamic (makeDynamicHttpLlmFunctionFromFunctionDefinition w d static
                         credentials)) with true.
    cbv iota. unfold mbind, M_bind, mret, M_ret.
    cbn [function makeDynamicHttpLlmFunctionFromFunctionDefinition].
    unfold mbind, M_bind, mret, M_ret, await.
    destruct (executeHttpApiRequest w _ _ _ _ _); by eexists.
Qed.

(** C9. A completion response with no choice, or whose first choice has
    no message, makes [getChatMessageFromOpenAiResponse] throw; a response
    whose first choice has a message yields that message. The exception
    ends the turn: whenever the answer to the request of a turn is such a
    response, [answerAwaited] throws it after that one request, with
    nothing appended to the rebuilt conversation. *)
Theorem getChatMessageFromOpenAiResponse_usable_or_fatal :
  (∀ (response : ChatCompletions) (σ : State),
     choices response = []
     ∨ (∃ rest, choices response = {| message := None |} :: rest) →
     getChatMessageFromOpenAiResponse response σ
     = (Thrown (Error "No message returned from OpenAI API"), σ))
  ∧ (∀ (response : ChatCompletions) (responseMessage : ChatMessage) rest (σ : State),
       choices response = {| message := Some responseMessage |} :: rest →
       getChatMessageFromOpenAiResponse response σ = (Returned responseMessage, σ))
  ∧ (∀ (p : ApiChatLlmAnswerAwaitedParams) (σ : State) pre m
       (response : ChatCompletions),
       let avail :=
         makeAvailableLlmFunctionsFromFunctionDefinitions w (default [] (functions m))
           (baseFunctions w) (default emptyHttpRequestArgs (staticHttpRequestArgs p))
           (maxNumDynamic params) (apiCredentials p) in
       let rebuilt :=
         rewriteNonEmpty (pre ++ [m])
           (makeSystemPrompt w (baseSystemPrompt params) avail
              (staticHttpRequestArgs p))
           (query p) in
       let request :=
         {| mo_options := options p;
            mo_functions := (λ f, definition (persistedFunction f)) <$> avail;
            mo_functionCall := "auto" |} in
       heap σ !! messages p = Some (pre ++ [m]) →
       getChatCompletions w (deploymentName params) (chat <$> rebuilt) request
       = Fulfilled response →
       choices response = []
       ∨ (∃ rest, choices response = {| message := None |} :: rest) →
       answerAwaited w params p σ
       = (Thrown (Error "No message returned from OpenAI API"),
          {| heap := heap σ ++ [rebuilt];
             trace :=
               trace σ
               ++ [EvGetChatCompletions (deploymentName params) (chat <$> rebuilt)
                     request] |})).
Proof.
  split; [|split].
  - intros response σ [Hnone|[rest Hfirst]]; unfold getChatMessageFromOpenAiResponse.
    + by rewrite Hnone.
    + by rewrite Hfirst.
  - intros response responseMessage rest σ Hfirst.
    unfold getChatMessageFromOpenAiResponse. by rewrite Hfirst.
  - intros p σ pre m response avail rebuilt request Hmsgs Hanswer Hunusable.
    rewrite (answerAwaited_run p σ pre m Hmsgs).
    fold avail. fold rebuilt. fold request. rewrite Hanswer.
    destruct Hunusable as [Hnone|[rest Hfirst]].
    + by rewrite Hnone.
    + by rewrite Hfirst.
Qed.

(** C10. [answerAwaited] takes the carried definitions from the last
    message of the conversation, an absent [functions] counting as the
    empty list. On an empty conversation the access to the last message
    throws a TypeError before anything else happens; on a conversation
    that is not empty this TypeError is never thrown, and the functions
    offered to the completion service are those of the window computed
    from the last message alone. *)
Theorem answerAwaited_last_message :
  (∀ (p : ApiChatLlmAnswerAwaitedParams) (σ : State),
     heap σ !! messages p = Some [] →
     answerAwaited w params p σ = (Thrown (TypeError undefinedFunctionsMessage), σ))
  ∧ (∀ pre m (σ : State),
       lastFunctions (pre ++ [m]) σ = (Returned (default [] (functions m)), σ))
  ∧ (∀ (p : ApiChatLlmAnswerAwaitedParams) (σ : State) msgs,
       heap σ !! messages p = Some msgs →
       msgs ≠ [] →
       ∀ msg, fst (answerAwaited w params p σ) ≠ Thrown (TypeError msg))
  ∧ (∀ (p : ApiChatLlmAnswerAwaitedParams) (σ : State) pre m,
       heap σ !! messages p = Some (pre ++ [m]) →
       ∃ ms o rest,
         trace (snd (answerAwaited w params p σ))
         = trace σ ++ EvGetChatCompletions (deploymentName params) ms o :: rest
         ∧ mo_functions o
           = (λ f, definition (persistedFunction f))
             <$> makeAvailableLlmFunctionsFromFunctionDefinitions w
                   (default [] (functions m)) (baseFunctions w)
                   (default emptyHttpRequestArgs (staticHttpRequestArgs p))
                   (maxNumDynamic params) (apiCredentials p)).
Proof.
  split; [|split; [|split]].
  - intros p σ Hmsgs. unfold answerAwaited.
    rewrite (bind_returned _ _ σ [] σ); [|unfold readArray; by rewrite Hmsgs].
    by rewrite (bind_thrown _ _ σ (TypeError undefinedFunctionsMessage) σ).
  - intros pre m σ. unfold lastFunctions. by rewrite last_snoc.
  - intros p σ msgs Hmsgs Hne msg.
    destruct (last msgs) as [m|] eqn:Hlast; [|by apply last_None in Hlast].
    apply last_Some in Hlast as [pre ->].
    rewrite (answerAwaited_run p σ pre m Hmsgs).
    destruct (getChatCompletions w _ _ _) as [response|reason]; [|discriminate].
    destruct (choices response) as [|[[responseMessage|]] rest];
      [discriminate| |discriminate].
    destruct (functionCall responseMessage) as [call|]; [|discriminate].
    apply (handleOpenAiFunctionCall_no_TypeError _ _ _ _
             (default emptyHttpRequestArgs (staticHttpRequestArgs p))
             (apiCredentials p)).
    intros f Hf. by apply window_members in Hf.
  - intros p σ pre m Hmsgs.
    rewrite (answerAwaited_run p σ pre m Hmsgs).
    destruct (getChatCompletions w _ _ _) as [response|reason];
      [|by eexists _, _, []].
    destruct (choices response) as [|[[responseMessage|]] rest];
      [by eexists _, _, []| |by eexists _, _, []].
    destruct (functionCall responseMessage) as [call|]; [|by eexists _, _, []].
    edestruct (handleOpenAiFunctionCall_trace responseMessage) as [rest' ->].
    { intros f Hf. apply window_members in Hf. exact Hf. }
    eexists _, _, rest'. cbn [trace]. by rewrite <- app_assoc.
Qed.

End Turn.

Lemma getChatMessageFromOpenAiResponse_usable_or_fatal_witness :
  fst (answerAwaited scenarioWorld scenarioParams (turn "empty choice")
         (startingFrom (carrying None)))
  = Thrown (Error "No message returned from OpenAI API")
  ∧ offeredFunctions
      (trace (snd (answerAwaited scenarioWorld scenarioParams (turn "empty choice")
                     (startingFrom (carrying None)))))
    = [["find_api_spec_action"]]
  ∧ rolesOf (snd (answerAwaited scenarioWorld scenarioParams (turn "empty choice")
                    (startingFrom (carrying None)))) 1%nat
    = ["system"; "assistant"; "user"]
  ∧ getChatMessageFromOpenAiResponse
      {| choices := [{| message := Some (assistantSays "Hello!") |}] |}
      (startingFrom [])
    = (Returned (assistantSays "Hello!"), startingFrom []).
Proof.
  destruct (getChatMessageFromOpenAiResponse_usable_or_fatal scenarioWorld scenarioParams)
    as (_ & Husable & Hfatal).
  rewrite (Hfatal (turn "empty choice") (startingFrom (carrying None)) []
             {| chat := assistantSays "How can I help?"; functions := None |}
             {| choices := [{| message := None |}] |}).
  - split; [reflexivity|]. split; [reflexivity|]. split; [reflexivity|].
    apply (Husable _ (assistantSays "Hello!") []). reflexivity.
  - reflexivity.
  - reflexivity.
  - right. by exists [].
Defined.

Lemma answerAwaited_last_message_witness :
  answerAwaited scenarioWorld scenarioParams (turn "hi") (startingFrom [])
  = (Thrown (TypeError undefinedFunctionsMessage), startingFrom [])
  ∧ fst (answerAwaited scenarioWorld scenarioParams (turn "hi")
           (startingFrom (carrying None)))
    ≠ Thrown (TypeError undefinedFunctionsMessage).
Proof.
  destruct (answerAwaited_last_message scenarioWorld scenarioParams)
    as (Hempty & _ & Hnonempty & _).
  split.
  - apply Hempty. reflexivity.
  - apply (Hnonempty (turn "hi") (startingFrom (carrying None)) (carrying None)).
    + reflexivity.
    + discriminate.
Defined.

(** * More on the window of available functions *)

Lemma filterUnique_sublist seen l : filterUnique seen l `sublist_of` l.
Proof.
  revert seen. induction l as [|x l IH]; intros seen; [constructor|].
  simpl. destruct (decide (pname x ∈ seen)).
  - apply sublist_cons, IH.
  - apply sublist_skip, IH.
Qed.

(** The names that pass the filter with the growing set. *)
Lemma filterUnique_names seen l n :
  n ∈ pname <$> filterUnique seen l ↔ (n ∉ seen) ∧ n ∈ pname <$> l.
Proof.
  revert seen. induction l as [|x l IH]; intros seen.
  { simpl. rewrite elem_of_nil. tauto. }
  simpl filterUnique. rewrite (fmap_cons pname x l), (elem_of_cons _ n (pname x)).
  destruct (decide (pname x ∈ seen)) as [Hin|Hnotin].
  - rewrite IH. split; [tauto|]. intros [Hn [Heq|Hl]]; [by subst n|tauto].
  - rewrite fmap_cons, elem_of_cons, IH, elem_of_union, elem_of_singleton.
    destruct (decide (n = pname x)) as [->|Hne]; tauto.
Qed.

Lemma filterUnique_NoDup seen l : NoDup (pname <$> filterUnique seen l).
Proof.
  revert seen. induction l as [|x l IH]; intros seen; [constructor|].
  simpl. destruct (decide (pname x ∈ seen)); [apply IH|].
  rewrite fmap_cons. constructor; [|apply IH].
  rewrite filterUnique_names, elem_of_union, elem_of_singleton. tauto.
Qed.

(** A list of distinct names outside the set passes the filter whole. *)
Lemma filterUnique_fixed seen l :
  NoDup (pname <$> l) →
  (∀ n, n ∈ pname <$> l → n ∉ seen) →
  filterUnique seen l = l.
Proof.
  revert seen. induction l as [|x l IH]; intros seen Hnodup Hout; [reflexivity|].
  rewrite fmap_cons in Hnodup. apply NoDup_cons in Hnodup as [Hx Hnodup].
  simpl. rewrite decide_False by (apply Hout; rewrite fmap_cons; left).
  f_equal. apply IH; [done|].
  intros n Hn [->%elem_of_singleton|Hseen]%elem_of_union; [done|].
  apply (Hout n); [rewrite fmap_cons; by right|done].
Qed.

(** The filter with the counter keeps the first [maxNumDynamicFunctions + 1
    - counter] elements whatever they are and, after them, the elements
    that are not base functions. *)
Lemma filterCounter_take_drop B max c l :
  filterCounter B max c l =
  take (Z.to_nat (max + 1 - c)) l
  ++ filter (λ x, pname x ∉ pname <$> B) (drop (Z.to_nat (max + 1 - c)) l).
Proof.
  revert c. induction l as [|x l IH]; intros c.
  { by rewrite take_nil, drop_nil. }
  simpl filterCounter. rewrite IH. unfold isBaseFunction.
  destruct (Z.leb_spec c max) as [Hle|Hgt].
  - replace (Z.to_nat (max + 1 - c)) with (S (Z.to_nat (max + 1 - (c + 1)))) by lia.
    reflexivity.
  - replace (Z.to_nat (max + 1 - c)) with 0%nat by lia.
    replace (Z.to_nat (max + 1 - (c + 1))) with 0%nat by lia.
    rewrite !take_0, !drop_0. simpl.
    destruct (decide (pname x ∈ pname <$> B)) as [Hbase|Hbase].
    + rewrite bool_decide_true by done. simpl.
      by rewrite filter_cons_False by tauto.
    + rewrite bool_decide_false by done. simpl.
      by rewrite filter_cons_True by done.
Qed.

Lemma getMaxAvailableFunctionDefinitions_take_drop D B max :
  max < Z.of_nat (length D) →
  getMaxAvailableFunctionDefinitions D B max
  = filter (λ x, pname x ∉ pname <$> B)
      (take (length (availableFunctionsCopy D B) - Z.to_nat (max + 1))
         (availableFunctionsCopy D B))
    ++ drop (length (availableFunctionsCopy D B) - Z.to_nat (max + 1))
         (availableFunctionsCopy D B).
Proof.
  intros Hlt. unfold getMaxAvailableFunctionDefinitions.
  destruct (Z.ltb_spec max (Z.of_nat (length D))); [|lia].
  rewrite filterCounter_take_drop, Z.sub_0_r, reverse_app.
  rewrite take_reverse, drop_reverse, filter_reverse, !reverse_involutive.
  reflexivity.
Qed.

(** X1. When more definitions are carried than the cap, the window is the
    merge with the base functions removed from all but its last
    [maxNumDynamicFunctions + 1] positions: those last positions are kept
    whatever they hold, and before them only the functions that are not
    base functions stay. *)
Theorem getMaxAvailableFunctionDefinitions_evicting
    (D B : list PersistedFunctionDefinition) (max : Z) :
  max < Z.of_nat (length D) →
  let merged := availableFunctionsCopy D B in
  let kept := (length merged - Z.to_nat (max + 1))%nat in
  getMaxAvailableFunctionDefinitions D B max
  = filter (λ x, pname x ∉ pname <$> B) (take kept merged) ++ drop kept merged.
Proof.
  intros Hlt merged kept.
  exact (getMaxAvailableFunctionDefinitions_take_drop D B max Hlt).
Qed.

Lemma getMaxAvailableFunctionDefinitions_evicting_witness :
  getMaxAvailableFunctionDefinitions
    [findApiSpecActionPersisted; getWeather; bookFlight; listHotels; rentCar]
    [findApiSpecActionPersisted] 3
  = [getWeather; bookFlight; listHotels; rentCar].
Proof.
  rewrite (getMaxAvailableFunctionDefinitions_evicting
             [findApiSpecActionPersisted; getWeather; bookFlight; listHotels; rentCar]
             [findApiSpecActionPersisted] 3).
  - reflexivity.
  - vm_compute. reflexivity.
Defined.

(** The functions that are not base functions all survive. *)
Lemma getMaxAvailableFunctionDefinitions_filter_not_base D B max :
  filter (λ x, pname x ∉ pname <$> B) (getMaxAvailableFunctionDefinitions D B max)
  = filter (λ x, pname x ∉ pname <$> B) (availableFunctionsCopy D B).
Proof.
  destruct (Z.ltb_spec max (Z.of_nat (length D))) as [Hlt|Hge].
  - rewrite (getMaxAvailableFunctionDefinitions_take_drop D B max Hlt).
    generalize (length (availableFunctionsCopy D B) - Z.to_nat (max + 1))%nat.
    intros k. rewrite filter_app, list_filter_filter.
    transitivity
      (filter (λ x, pname x ∉ pname <$> B)
         (take k (availableFunctionsCopy D B) ++ drop k (availableFunctionsCopy D B)));
      [|by rewrite take_drop].
    rewrite filter_app. f_equal. apply list_filter_iff. tauto.
  - unfold getMaxAvailableFunctionDefinitions.
    destruct (Z.ltb_spec max (Z.of_nat (length D))); [lia|reflexivity].
Qed.

Lemma getMaxAvailableFunctionDefinitions_sublist D B max :
  getMaxAvailableFunctionDefinitions D B max `sublist_of` availableFunctionsCopy D B.
Proof.
  destruct (Z.ltb_spec max (Z.of_nat (length D))) as [Hlt|Hge].
  - rewrite (getMaxAvailableFunctionDefinitions_take_drop D B max Hlt).
    generalize (length (availableFunctionsCopy D B) - Z.to_nat (max + 1))%nat.
    intros k.
    transitivity (take k (availableFunctionsCopy D B) ++ drop k (availableFunctionsCopy D B));
      [|by rewrite take_drop].
    apply sublist_app; [apply sublist_filter|reflexivity].
  - unfold getMaxAvailableFunctionDefinitions.
    destruct (Z.ltb_spec max (Z.of_nat (length D))); [lia|reflexivity].
Qed.

(** The merge is the deduplicated base list followed by what the carried
    list adds to it. *)
Lemma filterUnique_app seen l1 l2 :
  filterUnique seen (l1 ++ l2)
  = filterUnique seen l1
    ++ filterUnique (seen ∪ list_to_set (pname <$> l1)) l2.
Proof.
  revert seen. induction l1 as [|x l1 IH]; intros seen.
  { simpl. by rewrite union_empty_r_L. }
  rewrite fmap_cons, list_to_set_cons. simpl.
  destruct (decide (pname x ∈ seen)) as [Hin|Hnotin].
  - rewrite IH. do 2 f_equal. apply set_eq. intros m.
    rewrite !elem_of_union, elem_of_singleton.
    split; [tauto|]. intros [Hm|[Hm|Hm]]; [tauto|subst m; tauto|tauto].
  - rewrite IH. simpl. do 3 f_equal. apply set_eq. intros m.
    rewrite !elem_of_union, elem_of_singleton. tauto.
Qed.

Lemma filter_sublist_mono {A} (P : A → Prop) `{∀ x, Decision (P x)} (l1 l2 : list A) :
  l1 `sublist_of` l2 → filter P l1 `sublist_of` filter P l2.
Proof.
  induction 1 as [|x l1 l2 _ IH|x l1 l2 _ IH]; [constructor| |].
  - destruct (decide (P x)).
    + rewrite !filter_cons_True by done. by constructor.
    + by rewrite !filter_cons_False by done.
  - destruct (decide (P x)).
    + rewrite (filter_cons_True _ x l2) by done. by constructor.
    + by rewrite (filter_cons_False _ x l2) by done.
Qed.

(** C6. The merge is the concatenation of the base list and the carried
    list with the first occurrence of each name kept: the deduplicated
    base list comes first, followed by the carried definitions whose names
    are not base names. When [B] and [D] share the name [n], the merge
    contains exactly one tool named [n]; it is the first tool of that name
    in [B] and sits in the base part, and a carried tool of that name is in
    the merge only if it is that very tool. In the window returned after
    the eviction pass the tools named [n] are that one tool or none. *)
Theorem availableFunctionsCopy_shared_name
    (B D : list PersistedFunctionDefinition) (n : string) :
  n ∈ pname <$> B →
  n ∈ pname <$> D →
  availableFunctionsCopy D B = dedupFirstByName (B ++ D)
  ∧ (∃ R,
       availableFunctionsCopy D B = dedupFirstByName B ++ R
       ∧ R `sublist_of` D
       ∧ ∀ m, m ∈ pname <$> R ↔ m ∈ pname <$> D ∧ m ∉ pname <$> B)
  ∧ ∃ i b,
      list_find (λ f, pname f = n) B = Some (i, b)
      ∧ filter (λ f, pname f = n) (availableFunctionsCopy D B) = [b]
      ∧ b ∈ dedupFirstByName B
      ∧ (∃ d, d ∈ D ∧ pname d = n ∧ (d ∈ availableFunctionsCopy D B → d = b))
      ∧ ∀ max,
          filter (λ f, pname f = n) (getMaxAvailableFunctionDefinitions D B max) = [b]
          ∨ filter (λ f, pname f = n) (getMaxAvailableFunctionDefinitions D B max) = [].
Proof.
  intros HB HD.
  assert (Hbase : dedupFirstByName B = filterUnique ∅ B).
  { pose proof (availableFunctionsCopy_dedup [] B) as Hdedup.
    unfold availableFunctionsCopy in Hdedup. rewrite app_nil_r in Hdedup.
    symmetry. exact Hdedup. }
  split; [apply availableFunctionsCopy_dedup|]. split.
  - exists (filterUnique (∅ ∪ list_to_set (pname <$> B)) D).
    split; [|split].
    + rewrite Hbase. apply filterUnique_app.
    + apply filterUnique_sublist.
    + intros m.
      rewrite filterUnique_names, elem_of_union, elem_of_list_to_set.
      pose proof (not_elem_of_empty (C:=gset string) m). tauto.
  - destruct (availableFunctionsCopy_first_of_base B D n HB) as (i & b & Hfind & Hone).
    exists i, b. split; [exact Hfind|]. split; [exact Hone|]. split; [|split].
    + destruct (availableFunctionsCopy_first_of_base B [] n HB)
        as (i' & b' & Hfind' & Hone').
      rewrite Hfind in Hfind'. injection Hfind' as _ <-.
      unfold availableFunctionsCopy in Hone'. rewrite app_nil_r in Hone'.
      rewrite Hbase.
      assert (b ∈ filter (λ f, pname f = n) (filterUnique ∅ B)) as Hb
        by (rewrite Hone'; by left).
      by apply list_elem_of_filter in Hb as [_ Hb].
    + apply list_elem_of_fmap in HD as (d & Hname & Hd).
      exists d. split; [exact Hd|]. split; [done|]. intros Hin.
      assert (d ∈ filter (λ f, pname f = n) (availableFunctionsCopy D B)) as Hfiltered
        by (by apply list_elem_of_filter).
      rewrite Hone in Hfiltered. by apply list_elem_of_singleton in Hfiltered.
    + intros max.
      pose proof (filter_sublist_mono (λ f, pname f = n) _ _
                    (getMaxAvailableFunctionDefinitions_sublist D B max)) as Hsub.
      rewrite Hone in Hsub.
      apply sublist_cons_r in Hsub as [Hnil|(l' & -> & Hnil)];
        apply sublist_nil_r in Hnil.
      * by right.
      * subst l'. by left.
Qed.

Lemma availableFunctionsCopy_shared_name_witness :
  availableFunctionsCopy sharedNameCarried sharedNameBase
  = [findApiSpecActionPersisted; getWeather]
  ∧ pname <$> getMaxAvailableFunctionDefinitions sharedNameCarried sharedNameBase 1
    = ["find_api_spec_action"; "getWeather"]
  ∧ pname <$> getMaxAvailableFunctionDefinitions sharedNameCarried sharedNameBase 0
    = ["getWeather"]
  ∧ ∃ i b,
      list_find (λ f, pname f = find_api_spec_action) sharedNameBase = Some (i, b)
      ∧ filter (λ f, pname f = find_api_spec_action)
          (availableFunctionsCopy sharedNameCarried sharedNameBase) = [b].
Proof.
  split; [reflexivity|]. split; [reflexivity|]. split; [reflexivity|].
  destruct (availableFunctionsCopy_shared_name sharedNameBase sharedNameCarried
              find_api_spec_action) as (_ & _ & i & b & Hfind & Hone & _).
  - apply (bool_decide_unpack _). vm_compute. exact I.
  - apply (bool_decide_unpack _). vm_compute. exact I.
  - by exists i, b.
Defined.

(** X2. Whatever is carried and whatever the cap, no two definitions of
    the window have the same name, the window is a sublist of the merge,
    and every name in it is the name of a base definition or of a carried
    one. *)
Theorem getMaxAvailableFunctionDefinitions_NoDup
    (D B : list PersistedFunctionDefinition) (max : Z) :
  NoDup (pname <$> getMaxAvailableFunctionDefinitions D B max)
  ∧ getMaxAvailableFunctionDefinitions D B max `sublist_of` availableFunctionsCopy D B
  ∧ ∀ n, n ∈ pname <$> getMaxAvailableFunctionDefinitions D B max →
         n ∈ pname <$> B ∨ n ∈ pname <$> D.
Proof.
  pose proof (getMaxAvailableFunctionDefinitions_sublist D B max) as Hsub.
  split; [|split; [exact Hsub|]].
  - apply (sublist_NoDup _ (pname <$> availableFunctionsCopy D B)).
    + apply filterUnique_NoDup.
    + exact (fmap_sublist pname _ _ Hsub).
  - intros n Hn.
    assert (n ∈ pname <$> availableFunctionsCopy D B) as Hin.
    { exact (elem_of_sublist _ _ _ Hn (fmap_sublist pname _ _ Hsub)). }
    apply filterUnique_names in Hin as [_ Hin].
    by rewrite fmap_app, elem_of_app in Hin.
Qed.

Lemma getMaxAvailableFunctionDefinitions_not_base_kept D B max d :
  d ∈ D →
  pname d ∉ pname <$> B →
  pname d ∈ pname <$> getMaxAvailableFunctionDefinitions D B max.
Proof.
  intros Hd Hnotbase.
  assert (pname d ∈ pname <$> availableFunctionsCopy D B) as Hin.
  { apply filterUnique_names. split; [apply not_elem_of_empty|].
    rewrite fmap_app, elem_of_app. right. by apply list_elem_of_fmap_2. }
  apply list_elem_of_fmap in Hin as (x & Hname & Hx).
  assert (x ∈ filter (λ x, pname x ∉ pname <$> B)
                (getMaxAvailableFunctionDefinitions D B max)) as Hkept.
  { rewrite getMaxAvailableFunctionDefinitions_filter_not_base.
    apply list_elem_of_filter. split; [by rewrite <- Hname|done]. }
  apply list_elem_of_filter in Hkept as [_ Hkept].
  rewrite Hname. by apply list_elem_of_fmap_2.
Qed.

(** X3. No dynamic definition is ever evicted: a carried definition whose
    name is not the name of a base definition has its name in the window,
    whatever the cap. *)
Theorem getMaxAvailableFunctionDefinitions_keeps_dynamic
    (D B : list PersistedFunctionDefinition) (max : Z) (d : PersistedFunctionDefinition) :
  d ∈ D →
  pname d ∉ pname <$> B →
  pname d ∈ pname <$> getMaxAvailableFunctionDefinitions D B max.
Proof. apply getMaxAvailableFunctionDefinitions_not_base_kept. Qed.

Lemma getMaxAvailableFunctionDefinitions_keeps_dynamic_witness :
  pname rentCar
  ∈ pname <$> getMaxAvailableFunctionDefinitions
      [findApiSpecActionPersisted; getWeather; bookFlight; listHotels; rentCar]
      [findApiSpecActionPersisted] 0.
Proof.
  apply (getMaxAvailableFunctionDefinitions_keeps_dynamic
           [findApiSpecActionPersisted; getWeather; bookFlight; listHotels; rentCar]
           [findApiSpecActionPersisted] 0 rentCar).
  - repeat constructor.
  - apply (bool_decide_unpack _). vm_compute. exact I.
Defined.

(** X4. Under the cap nothing is evicted: when no more definitions are
    carried than the cap, the window is the merge, and its names are
    exactly the names of the base definitions and of the carried ones. *)
Theorem getMaxAvailableFunctionDefinitions_under_cap
    (D B : list PersistedFunctionDefinition) (max : Z) :
  Z.of_nat (length D) ≤ max →
  getMaxAvailableFunctionDefinitions D B max = availableFunctionsCopy D B
  ∧ ∀ n, n ∈ pname <$> getMaxAvailableFunctionDefinitions D B max
         ↔ n ∈ pname <$> B ∨ n ∈ pname <$> D.
Proof.
  intros Hle.
  assert (getMaxAvailableFunctionDefinitions D B max = availableFunctionsCopy D B)
    as Heq.
  { unfold getMaxAvailableFunctionDefinitions.
    destruct (Z.ltb_spec max (Z.of_nat (length D))); [lia|reflexivity]. }
  split; [exact Heq|]. intros n. rewrite Heq.
  unfold availableFunctionsCopy.
  rewrite filterUnique_names, fmap_app, elem_of_app.
  pose proof (not_elem_of_empty (C:=gset string) n). tauto.
Qed.

Lemma getMaxAvailableFunctionDefinitions_under_cap_witness :
  getMaxAvailableFunctionDefinitions [getWeather; bookFlight]
    [findApiSpecActionPersisted] 3
  = [findApiSpecActionPersisted; getWeather; bookFlight].
Proof.
  destruct (getMaxAvailableFunctionDefinitions_under_cap [getWeather; bookFlight]
              [findApiSpecActionPersisted] 3) as [-> _].
  - vm_compute. discriminate.
  - reflexivity.
Defined.

(** ** With the one base function of the program *)

Lemma filter_all {A} (P : A → Prop) `{∀ x, Decision (P x)} (l : list A) :
  Forall P l → filter P l = l.
Proof.
  induction 1 as [|x l Hx _ IH]; [reflexivity|].
  by rewrite filter_cons_True, IH.
Qed.

Lemma availableFunctionsCopy_single D f0 :
  availableFunctionsCopy D [f0] = f0 :: filterUnique {[pname f0]} D.
Proof.
  unfold availableFunctionsCopy. simpl.
  rewrite decide_False by apply not_elem_of_empty.
  by rewrite union_empty_r_L.
Qed.

Lemma filterUnique_single_not_base D f0 :
  Forall (λ x, pname x ∉ pname <$> [f0]) (filterUnique {[pname f0]} D).
Proof.
  apply Forall_forall. intros x Hx.
  assert (pname x ∈ pname <$> filterUnique {[pname f0]} D) as Hn
    by (by apply list_elem_of_fmap_2).
  apply filterUnique_names in Hn as [Hn _].
  simpl. rewrite list_elem_of_singleton. by rewrite elem_of_singleton in Hn.
Qed.

(** With one base definition the window is the carried definitions,
    deduplicated and without those of the base name, preceded by the base
    definition iff there are at most [maxNumDynamicFunctions] of them. *)
Lemma getMaxAvailableFunctionDefinitions_single D f0 max :
  getMaxAvailableFunctionDefinitions D [f0] max
  = if bool_decide (Z.of_nat (length (filterUnique {[pname f0]} D)) ≤ max)
    then f0 :: filterUnique {[pname f0]} D
    else filterUnique {[pname f0]} D.
Proof.
  pose proof (filterUnique_single_not_base D f0) as Hnb.
  pose proof (sublist_length _ _ (filterUnique_sublist {[pname f0]} D)) as Hlen.
  destruct (Z.ltb_spec max (Z.of_nat (length D))) as [Hlt|Hge].
  - rewrite (getMaxAvailableFunctionDefinitions_take_drop D [f0] max Hlt).
    rewrite availableFunctionsCopy_single. cbn [length].
    set (R := filterUnique {[pname f0]} D) in *.
    case_bool_decide as HR.
    + replace (S (length R) - Z.to_nat (max + 1))%nat with 0%nat by lia.
      by rewrite take_0, drop_0.
    + destruct (S (length R) - Z.to_nat (max + 1))%nat as [|j] eqn:Hj; [lia|].
      cbn [take drop].
      rewrite filter_cons_False
        by (intros Hf; apply Hf; simpl; apply list_elem_of_singleton; reflexivity).
      rewrite filter_all by (by apply Forall_take).
      apply take_drop.
  - unfold getMaxAvailableFunctionDefinitions.
    destruct (Z.ltb_spec max (Z.of_nat (length D))); [lia|].
    rewrite availableFunctionsCopy_single.
    by rewrite bool_decide_true by lia.
Qed.

Section Window.

Context (w : World).

Lemma baseFunctions_persisted :
  persistedFunction <$> baseFunctions w = [findApiSpecActionPersisted].
Proof. reflexivity. Qed.

(** The definition behind each function of the window is the definition
    it was made from. *)
Lemma makeAvailableLlmFunctionsFromFunctionDefinitions_persisted
    D static max credentials :
  persistedFunction
  <$> makeAvailableLlmFunctionsFromFunctionDefinitions w D (baseFunctions w) static
        max credentials
  = getMaxAvailableFunctionDefinitions D [findApiSpecActionPersisted] max.
Proof.
  unfold makeAvailableLlmFunctionsFromFunctionDefinitions.
  rewrite baseFunctions_persisted, <- list_fmap_compose.
  rewrite <- (list_fmap_id (getMaxAvailableFunctionDefinitions D _ max)) at 2.
  apply Forall_fmap_ext, Forall_forall. intros d Hd. simpl.
  destruct (decide (find_api_spec_action = pname d)) as [Heq|Hne].
  - rewrite bool_decide_true by done. simpl.
    rewrite getMaxAvailableFunctionDefinitions_single in Hd.
    pose proof (filterUnique_single_not_base D findApiSpecActionPersisted) as Hnb.
    rewrite Forall_forall in Hnb.
    assert (d ∈ filterUnique {[pname findApiSpecActionPersisted]} D → False) as Hno.
    { intros HR. apply (Hnb d HR). simpl. apply list_elem_of_singleton.
      by rewrite <- Heq. }
    case_bool_decide; [|done].
    apply elem_of_cons in Hd as [->|Hd]; [reflexivity|done].
  - rewrite bool_decide_false by done. reflexivity.
Qed.

End Window.

Section WindowOfTheProgram.

Context (w : World).

Lemma toolNames_persisted (fns : list ChatGptLlmFunction) :
  toolNames fns = pname <$> (persistedFunction <$> fns).
Proof. unfold toolNames. by rewrite <- list_fmap_compose. Qed.

(** X5. The reserved catalog search is in the window of a turn iff the
    merge of the base definition with the carried ones has at most
    [maxNumDynamicFunctions + 1] definitions, that is, iff at most
    [maxNumDynamicFunctions] distinct other names are carried. *)
Theorem find_api_spec_action_available_iff
    (D : list PersistedFunctionDefinition) (static : HttpRequestArgs) (max : Z)
    (credentials : HttpApiCredentials) :
  find_api_spec_action
  ∈ toolNames (makeAvailableLlmFunctionsFromFunctionDefinitions w D (baseFunctions w)
                 static max credentials)
  ↔ Z.of_nat (length (availableFunctionsCopy D [findApiSpecActionPersisted])) ≤ max + 1.
Proof.
  rewrite toolNames_persisted,
    makeAvailableLlmFunctionsFromFunctionDefinitions_persisted,
    getMaxAvailableFunctionDefinitions_single, availableFunctionsCopy_single.
  cbn [length].
  pose proof (filterUnique_names {[pname findApiSpecActionPersisted]} D
                find_api_spec_action) as Hnames.
  case_bool_decide as HR.
  - split; [lia|]. intros _. rewrite fmap_cons. by left.
  - split; [|lia]. intros [Hno _]%Hnames. exfalso. apply Hno.
    by apply elem_of_singleton.
Qed.

(** X6. Every function of the window has the name of its definition; the
    one named [find_api_spec_action], if any, is the built-in catalog
    search, whatever definition of that name is carried; every other one
    is a dynamic function that calls the downstream API with the verb and
    the path of its definition. *)
Theorem makeAvailableLlmFunctionsFromFunctionDefinitions_members
    (D : list PersistedFunctionDefinition) (static : HttpRequestArgs) (max : Z)
    (credentials : HttpApiCredentials) (f : ChatGptLlmFunction) :
  f ∈ makeAvailableLlmFunctionsFromFunctionDefinitions w D (baseFunctions w) static
        max credentials →
  fn_name f = pname (persistedFunction f)
  ∧ (fn_name f = find_api_spec_action →
     f = makeFindApiSpecAction w ∧ isDynamic f = false)
  ∧ (fn_name f ≠ find_api_spec_action →
     f = makeDynamicHttpLlmFunctionFromFunctionDefinition w (persistedFunction f)
           static credentials
     ∧ isDynamic f = true).
Proof.
  unfold makeAvailableLlmFunctionsFromFunctionDefinitions.
  intros (d & -> & _)%list_elem_of_fmap. simpl.
  destruct (decide (find_api_spec_action = pname d)) as [Heq|Hne].
  - rewrite bool_decide_true by done. simpl.
    split; [reflexivity|]. split; [done|]. intros Hne. by destruct Hne.
  - rewrite bool_decide_false by done. simpl.
    split; [reflexivity|]. split; [|done]. intros Heq. by destruct Hne.
Qed.

(** X7. The window is stable: computed again from the definitions of its
    own functions, which is what the next turn does when the last message
    carries them, it is the same window. *)
Theorem makeAvailableLlmFunctionsFromFunctionDefinitions_stable
    (D : list PersistedFunctionDefinition) (static : HttpRequestArgs) (max : Z)
    (credentials : HttpApiCredentials) :
  makeAvailableLlmFunctionsFromFunctionDefinitions w
    (persistedFunction
     <$> makeAvailableLlmFunctionsFromFunctionDefinitions w D (baseFunctions w)
           static max credentials)
    (baseFunctions w) static max credentials
  = makeAvailableLlmFunctionsFromFunctionDefinitions w D (baseFunctions w) static max
      credentials.
Proof.
  rewrite makeAvailableLlmFunctionsFromFunctionDefinitions_persisted.
  unfold makeAvailableLlmFunctionsFromFunctionDefinitions.
  rewrite baseFunctions_persisted. f_equal.
  set (f0 := findApiSpecActionPersisted).
  set (R := filterUnique {[pname f0]} D).
  assert (filterUnique {[pname f0]} R = R) as HRR.
  { apply filterUnique_fixed; [apply filterUnique_NoDup|].
    intros n Hn. by apply filterUnique_names in Hn as [Hn _]. }
  rewrite (getMaxAvailableFunctionDefinitions_single D f0 max). fold R.
  case_bool_decide as HR.
  - rewrite getMaxAvailableFunctionDefinitions_single. simpl filterUnique.
    rewrite decide_True by (by apply elem_of_singleton).
    rewrite HRR. by rewrite bool_decide_true.
  - rewrite getMaxAvailableFunctionDefinitions_single. rewrite HRR.
    by rewrite bool_decide_false.
Qed.

End WindowOfTheProgram.

Lemma makeAvailableLlmFunctionsFromFunctionDefinitions_members_witness :
  (∀ f,
     f ∈ makeAvailableLlmFunctionsFromFunctionDefinitions scenarioWorld
           sharedNameCarried (baseFunctions scenarioWorld) emptyHttpRequestArgs 3 JNull →
     fn_name f = find_api_spec_action →
     f = makeFindApiSpecAction scenarioWorld ∧ isDynamic f = false)
  ∧ toolNames
      (makeAvailableLlmFunctionsFromFunctionDefinitions scenarioWorld
         sharedNameCarried (baseFunctions scenarioWorld) emptyHttpRequestArgs 3 JNull)
    = [find_api_spec_action; "getWeather"].
Proof.
  split; [|reflexivity]. intros f Hf.
  exact (proj1 (proj2
    (makeAvailableLlmFunctionsFromFunctionDefinitions_members scenarioWorld
       sharedNameCarried emptyHttpRequestArgs 3 JNull f Hf))).
Defined.

(** * More on the system prompt *)

Lemma append_String (a : ascii) (s t : string) :
  String a s +:+ t = String a (s +:+ t).
Proof. reflexivity. Qed.

Lemma length_append (s t : string) :
  String.length (s +:+ t) = (String.length s + String.length t)%nat.
Proof.
  induction s as [|a s IH]; [reflexivity|].
  rewrite append_String. simpl. by rewrite IH.
Qed.

Lemma trimStart_String (a : ascii) (s1 : string) :
  trimStart (String a s1)
  = if Ascii.is_space a then trimStart s1
    else
      match s1 with
      | "" => String a s1
      | String b s2 =>
          if white2 a b then trimStart s2
          else
            match s2 with
            | "" => String a s1
            | String c s3 => if white3 a b c then trimStart s3 else String a s1
            end
      end.
Proof. by destruct s1 as [|b [|c s3]]. Qed.

(** The bytes of a white space code point are white space of ASCII or
    are not ASCII. *)
Lemma is_space_not_plain (a : ascii) : Ascii.is_space a = true → plain a = false.
Proof. intros Ha. unfold plain. by rewrite Ha. Qed.

Lemma plain_high (c : ascii) : (128 ≤ N_of_ascii c)%N → plain c = false.
Proof.
  intros Hc. unfold plain.
  destruct (N.ltb_spec (N_of_ascii c) 128); [lia|]. apply andb_false_r.
Qed.

Lemma white2_not_plain (a b : ascii) :
  white2 a b = true → plain a = false ∧ plain b = false.
Proof.
  unfold white2. rewrite andb_true_iff, !Ascii.eqb_eq. by intros [-> ->].
Qed.

Lemma white3_not_plain (a b c : ascii) :
  white3 a b c = true → plain a = false ∧ plain b = false ∧ plain c = false.
Proof.
  unfold white3.
  repeat first [rewrite orb_true_iff | rewrite andb_true_iff].
  rewrite !Ascii.eqb_eq, !N.leb_le.
  intros Hw.
  repeat match goal with
         | H : _ ∨ _ |- _ => destruct H
         | H : _ ∧ _ |- _ => destruct H
         end;
    subst; repeat split; try reflexivity; by apply plain_high.
Qed.

Lemma plain_not_white (c : ascii) :
  plain c = true →
  Ascii.is_space c = false
  ∧ (∀ b, white2 c b = false) ∧ (∀ a, white2 a c = false)
  ∧ (∀ b d, white3 c b d = false) ∧ (∀ a d, white3 a c d = false)
  ∧ (∀ a b, white3 a b c = false).
Proof.
  intros Hc. repeat split.
  - destruct (Ascii.is_space c) eqn:H; [|done].
    apply is_space_not_plain in H. congruence.
  - intros b. destruct (white2 c b) eqn:H; [|done].
    apply white2_not_plain in H as [? ?]. congruence.
  - intros a. destruct (white2 a c) eqn:H; [|done].
    apply white2_not_plain in H as [? ?]. congruence.
  - intros b d. destruct (white3 c b d) eqn:H; [|done].
    apply white3_not_plain in H as (? & ? & ?). congruence.
  - intros a d. destruct (white3 a c d) eqn:H; [|done].
    apply white3_not_plain in H as (? & ? & ?). congruence.
  - intros a b. destruct (white3 a b c) eqn:H; [|done].
    apply white3_not_plain in H as (? & ? & ?). congruence.
Qed.

(** White space followed by white space is white space. *)
Lemma trimStart_append_white (x y : string) :
  trimStart x = "" → trimStart y = "" → trimStart (x +:+ y) = "".
Proof.
  remember (String.length x) as n eqn:Hn. revert x Hn.
  induction n as [n IH] using lt_wf_ind. intros x Hn Hx Hy.
  destruct x as [|a s1]; [exact Hy|].
  rewrite append_String, trimStart_String. rewrite trimStart_String in Hx.
  simpl in Hn.
  destruct (Ascii.is_space a).
  { apply (IH (String.length s1)); [lia|reflexivity|exact Hx|exact Hy]. }
  destruct s1 as [|b s2]; [discriminate|].
  rewrite append_String. simpl in Hn.
  destruct (white2 a b).
  { apply (IH (String.length s2)); [lia|reflexivity|exact Hx|exact Hy]. }
  destruct s2 as [|c s3]; [discriminate|].
  rewrite append_String. simpl in Hn.
  destruct (white3 a b c); [|discriminate].
  apply (IH (String.length s3)); [lia|reflexivity|exact Hx|exact Hy].
Qed.

(** A string with a plain ASCII byte in it is not white space only. *)
Lemma trimStart_plain (x : string) (c : ascii) (y : string) :
  plain c = true → trimStart (x +:+ String c y) ≠ "".
Proof.
  intros Hc.
  destruct (plain_not_white c Hc) as (Hc1 & Hc2 & Hc2' & Hc3 & Hc3' & Hc3'').
  remember (String.length x) as n eqn:Hn. revert x Hn.
  induction n as [n IH] using lt_wf_ind. intros x Hn.
  destruct x as [|a s1].
  { change ("" +:+ String c y) with (String c y).
    rewrite trimStart_String, Hc1.
    destruct y as [|b [|d y]]; rewrite ?Hc2, ?Hc3; discriminate. }
  rewrite append_String, trimStart_String. simpl in Hn.
  destruct (Ascii.is_space a).
  { apply (IH (String.length s1)); [lia|reflexivity]. }
  destruct s1 as [|b s2].
  { change ("" +:+ String c y) with (String c y). cbv iota. rewrite Hc2'.
    destruct y as [|d y]; rewrite ?Hc3'; discriminate. }
  rewrite append_String. simpl in Hn.
  destruct (white2 a b).
  { apply (IH (String.length s2)); [lia|reflexivity]. }
  destruct s2 as [|d s3].
  { change ("" +:+ String c y) with (String c y). cbv iota.
    rewrite Hc3''. discriminate. }
  rewrite append_String.
  destruct (white3 a b d); [|discriminate].
  simpl in Hn. apply (IH (String.length s3)); [lia|reflexivity].
Qed.

Lemma trimEnd_String (a : ascii) (s : string) :
  trimEnd (String a s)
  = match trimStart (String a s) with
    | "" => ""
    | _ => String a (trimEnd s)
    end.
Proof. reflexivity. Qed.

(** [trimEnd] does not reach before a plain ASCII byte. *)
Lemma trimEnd_after (pre : string) (c : ascii) (s : string) :
  plain c = true →
  trimEnd (pre +:+ String c s) = pre +:+ String c (trimEnd s).
Proof.
  intros Hc. induction pre as [|a pre IH].
  - change ("" +:+ String c s) with (String c s). rewrite trimEnd_String.
    pose proof (trimStart_plain "" c s Hc) as Hne.
    change ("" +:+ String c s) with (String c s) in Hne.
    by destruct (trimStart (String c s)).
  - rewrite !append_String, trimEnd_String, IH.
    pose proof (trimStart_plain (String a pre) c s Hc) as Hne.
    rewrite append_String in Hne.
    by destruct (trimStart (String a (pre +:+ String c s))).
Qed.

(** What [trimEnd] removes is white space. *)
Lemma trimEnd_split (s : string) :
  ∃ removed, s = trimEnd s +:+ removed ∧ trimStart removed = "".
Proof.
  induction s as [|a s (removed & Hs & Hremoved)]; [by exists ""|].
  rewrite trimEnd_String.
  destruct (trimStart (String a s)) as [|b t] eqn:Hstart.
  - by exists (String a s).
  - exists removed. split; [|exact Hremoved].
    rewrite append_String. by rewrite <- Hs.
Qed.

Lemma trimEnd_length (pre v : string) :
  trimStart v = "" → (String.length (trimEnd (pre +:+ v)) ≤ String.length pre)%nat.
Proof.
  intros Hv. induction pre as [|a pre IH].
  - change ("" +:+ v) with v. destruct v as [|b v]; [done|].
    rewrite trimEnd_String, Hv. done.
  - rewrite append_String, trimEnd_String.
    destruct (trimStart (String a (pre +:+ v))); simpl; lia.
Qed.

(** [trimEnd] leaves no white space at the end: no suffix of its result,
    the empty one apart, is white space only. *)
Lemma trimEnd_no_white_suffix (s pre u : string) :
  trimEnd s = pre +:+ u → u ≠ "" → trimStart u ≠ "".
Proof.
  intros Hs Hu Hwhite.
  destruct (trimEnd_split s) as (removed & Hsplit & Hremoved).
  rewrite Hs, string_app_assoc in Hsplit.
  pose proof (trimEnd_length pre (u +:+ removed)
                (trimStart_append_white u removed Hwhite Hremoved)) as Hlen.
  rewrite <- Hsplit, Hs, length_append in Hlen.
  destruct u as [|a u]; [done|]. simpl in Hlen. lia.
Qed.

Lemma whiteSpaceCodePoints_white (ws : string) :
  ws ∈ whiteSpaceCodePoints → ws ≠ "" ∧ trimStart ws = "".
Proof.
  assert (Forall (λ ws, ws ≠ "" ∧ trimStart ws = "") whiteSpaceCodePoints) as Hall.
  { unfold whiteSpaceCodePoints. repeat constructor; discriminate. }
  rewrite Forall_forall in Hall. apply Hall.
Qed.

Section Prompt.

Context (w : World).

Lemma makeSystemPrompt_prefix base fns static :
  ∃ rest, makeSystemPrompt w base fns static = base +:+ rest.
Proof.
  unfold makeSystemPrompt.
  destruct (0 <? length (List.filter isDynamic fns))%nat, static as [args|].
  - eexists. by rewrite string_app_assoc.
  - by eexists.
  - by eexists.
  - exists "". by rewrite string_app_nil_r.
Qed.

(** X8. The system prompt always starts with the base prompt, whatever
    the window and the static arguments, and it contains the name of every
    function of the window that is dynamic. *)
Theorem makeSystemPrompt_names_dynamic
    (base : string) (currentFunctions : list ChatGptLlmFunction)
    (static : option HttpRequestArgs) :
  (∃ rest, makeSystemPrompt w base currentFunctions static = base +:+ rest)
  ∧ ∀ f,
      f ∈ currentFunctions →
      dynamic f = Some true →
      ∃ before after,
        makeSystemPrompt w base currentFunctions static
        = before +:+ fd_name (definition (persistedFunction f)) +:+ after.
Proof.
  split; [apply makeSystemPrompt_prefix|]. intros f Hf Hdyn.
  assert (f ∈ List.filter isDynamic currentFunctions) as Hin.
  { apply list_elem_of_In, List.filter_In. split; [by apply list_elem_of_In|].
    unfold isDynamic. by rewrite Hdyn. }
  change (occursIn (pname (persistedFunction f))
            (makeSystemPrompt w base currentFunctions static)).
  unfold makeSystemPrompt.
  destruct (List.filter isDynamic currentFunctions) as [|g dyn] eqn:Hfilter;
    [by apply elem_of_nil in Hin|].
  cbn [length Nat.ltb Nat.leb].
  assert (occursIn (pname (persistedFunction f))
            (base +:+ dynamicFunctionsInstruction (g :: dyn))) as Hocc.
  { apply occursIn_prepend. unfold dynamicFunctionsInstruction.
    apply occursIn_prepend, occursIn_append, occursIn_join.
    by apply (list_elem_of_fmap_2 (λ func, pname (persistedFunction func))). }
  destruct static as [args|]; [|exact Hocc].
  by apply occursIn_append.
Qed.

(** X9. The block on the static request arguments starts with its header
    line and never ends in white space, whatever the serializer returns:
    no white space or line terminator code point of ECMAScript is at its
    end. *)
Theorem makeUserSystemPromptContext_trimmed (args : HttpRequestArgs) :
  (∃ rest,
     makeUserSystemPromptContext w args
     = "The following information is available for you to use for calling functions:"
       +:+ rest)
  ∧ ∀ pre ws,
      ws ∈ whiteSpaceCodePoints →
      makeUserSystemPromptContext w args ≠ pre +:+ ws.
Proof.
  unfold makeUserSystemPromptContext.
  set (tail := nl +:+ contextBlock w "Headers:" (headers args)
               +:+ contextBlock w "Request body:" (body args)
               +:+ contextBlock w "Path parameters:" (pathParameters args)
               +:+ contextBlock w "Query parameters:" (queryParameters args)
               +:+ nl +:+ "  ").
  split.
  - change ("The following information is available for you to use for calling functions:"
            +:+ tail)
      with ("The following information is available for you to use for calling functions"
            +:+ String ":" tail).
    rewrite trimEnd_after by reflexivity.
    exists (trimEnd tail). reflexivity.
  - intros pre ws Hws Hend.
    destruct (whiteSpaceCodePoints_white ws Hws) as [Hne Hwhite].
    exact (trimEnd_no_white_suffix _ pre ws Hend Hne Hwhite).
Qed.

End Prompt.

Lemma makeSystemPrompt_names_dynamic_witness :
  ∃ before after,
    makeSystemPrompt scenarioWorld "You are helpful."
      (makeAvailableLlmFunctionsFromFunctionDefinitions scenarioWorld [getWeather]
         (baseFunctions scenarioWorld) emptyHttpRequestArgs 3 JNull)
      None
    = before +:+ "getWeather" +:+ after.
Proof.
  apply (proj2 (makeSystemPrompt_names_dynamic scenarioWorld "You are helpful." _ None)
           (makeDynamicHttpLlmFunctionFromFunctionDefinition scenarioWorld getWeather
              emptyHttpRequestArgs JNull)).
  - vm_compute. repeat constructor.
  - reflexivity.
Defined.

(** A serializer whose output ends in a no-break space, U+00A0: the block
    ends with the text before it. *)
Lemma makeUserSystemPromptContext_trimmed_witness :
  makeUserSystemPromptContext
    {| getChatCompletions := getChatCompletions scenarioWorld;
       executeHttpApiRequest := executeHttpApiRequest scenarioWorld;
       findApiSpecFunctionDefinition := findApiSpecFunctionDefinition scenarioWorld;
       JSON_parse := JSON_parse scenarioWorld;
       JSON_stringify := JSON_stringify scenarioWorld;
       yaml_stringify := λ _, "a: b" +:+ String "194" (String "160" "") |}
    {| headers := None; body := None; pathParameters := None;
       queryParameters := Some (JObj [("a", JStr "b")]) |}
  ≠ "" +:+ String "194" (String "160" "")
  ∧ makeUserSystemPromptContext
      {| getChatCompletions := getChatCompletions scenarioWorld;
         executeHttpApiRequest := executeHttpApiRequest scenarioWorld;
         findApiSpecFunctionDefinition := findApiSpecFunctionDefinition scenarioWorld;
         JSON_parse := JSON_parse scenarioWorld;
         JSON_stringify := JSON_stringify scenarioWorld;
         yaml_stringify := λ _, "a: b" +:+ String "194" (String "160" "") |}
      {| headers := None; body := None; pathParameters := None;
         queryParameters := Some (JObj [("a", JStr "b")]) |}
    = "The following information is available for you to use for calling functions:"
      +:+ nl +:+ "Query parameters:" +:+ nl +:+ "a: b".
Proof.
  split; [|reflexivity].
  apply (proj2 (makeUserSystemPromptContext_trimmed _ _)).
  vm_compute. repeat constructor.
Defined.

(** * More on the rebuilt conversation *)

Lemma filter_system_not_system (msgs : list OpenAiChatMessage) :
  filter (λ m, role (chat m) = "system")
    (filter (λ m, role (chat m) ≠ "system") msgs) = [].
Proof.
  induction msgs as [|m msgs IH]; [reflexivity|].
  destruct (decide (role (chat m) = "system")) as [Heq|Hne].
  - by rewrite filter_cons_False by tauto.
  - rewrite filter_cons_True by done. by rewrite filter_cons_False by done.
Qed.

Lemma filter_not_system_idemp (msgs : list OpenAiChatMessage) :
  filter (λ m, role (chat m) ≠ "system")
    (filter (λ m, role (chat m) ≠ "system") msgs)
  = filter (λ m, role (chat m) ≠ "system") msgs.
Proof. rewrite list_filter_filter. apply list_filter_iff. tauto. Qed.

(** The trailing user message of a rebuilt conversation. *)
Lemma rewriteNonEmpty_unfold prior prompt query :
  rewriteNonEmpty prior prompt query
  = systemMessage prompt
    :: filter (λ m, role (chat m) ≠ "system") prior
    ++ match query with
       | Some q => if decide (q = "") then [] else [userMessage q]
       | None => []
       end.
Proof. unfold rewriteNonEmpty, rewrite. by destruct query as [[|c q]|]. Qed.

Lemma rewriteNonEmpty_one_system prior prompt query :
  filter (λ m, role (chat m) = "system") (rewriteNonEmpty prior prompt query)
  = [systemMessage prompt].
Proof.
  rewrite rewriteNonEmpty_unfold, filter_cons_True by reflexivity.
  rewrite filter_app, filter_system_not_system. f_equal.
  destruct query as [q|]; [|reflexivity]. by destruct (decide (q = "")).
Qed.

Lemma rewriteNonEmpty_again prior prompt1 query prompt2 :
  rewriteNonEmpty (rewriteNonEmpty prior prompt1 query) prompt2 None
  = rewriteNonEmpty prior prompt2 query.
Proof.
  rewrite (rewriteNonEmpty_unfold _ prompt2 None), app_nil_r.
  rewrite !rewriteNonEmpty_unfold. f_equal.
  rewrite filter_cons_False by (intros Hne; by apply Hne).
  rewrite filter_app, filter_not_system_idemp. f_equal.
  destruct query as [q|]; [|reflexivity]. by destruct (decide (q = "")).
Qed.

Section RewriteMore.

Context (w : World).

(** X10. The rebuilt conversation holds exactly one system message, the
    new one, and it comes first, however many system messages the prior
    conversation held. *)
Theorem updateConversationWithNewSystemPrompt_one_system
    (base : string) (avail : list ChatGptLlmFunction) (messages : ArrayRef)
    (query : option string) (static : option HttpRequestArgs)
    (σ : State) (prior : list OpenAiChatMessage) :
  heap σ !! messages = Some prior →
  ∃ (currentMessages : ArrayRef) (σ' : State) (rebuilt : list OpenAiChatMessage),
    updateConversationWithNewSystemPrompt w base avail messages query static σ
    = (Returned currentMessages, σ')
    ∧ heap σ' !! currentMessages = Some rebuilt
    ∧ head rebuilt = Some (systemMessage (makeSystemPrompt w base avail static))
    ∧ filter (λ m, role (chat m) = "system") rebuilt
      = [systemMessage (makeSystemPrompt w base avail static)].
Proof.
  intros Hprior. eexists _, _, _. split.
  { by apply updateConversationWithNewSystemPrompt_run. }
  cbn [heap]. split.
  { rewrite lookup_app_r by lia. by rewrite Nat.sub_diag. }
  split; [by rewrite rewriteNonEmpty_unfold|apply rewriteNonEmpty_one_system].
Qed.

(** X11. System prompts do not pile up: rebuilding a rebuilt conversation
    with another prompt and no query gives the conversation the prior
    messages would have given with that prompt, the user message of the
    first rebuild still at its end; the prior array stays as it was. *)
Theorem updateConversationWithNewSystemPrompt_again
    (base1 base2 : string) (avail1 avail2 : list ChatGptLlmFunction)
    (messages : ArrayRef) (query : option string)
    (static1 static2 : option HttpRequestArgs)
    (σ : State) (prior : list OpenAiChatMessage) :
  heap σ !! messages = Some prior →
  ∃ (second : ArrayRef) (σ' : State),
    (first ← updateConversationWithNewSystemPrompt w base1 avail1 messages query
               static1;
     updateConversationWithNewSystemPrompt w base2 avail2 first None static2) σ
    = (Returned second, σ')
    ∧ heap σ' !! second
      = Some (rewriteNonEmpty prior (makeSystemPrompt w base2 avail2 static2) query)
    ∧ heap σ' !! messages = Some prior.
Proof.
  intros Hprior. pose proof (lookup_lt_Some _ _ _ Hprior) as Hlt.
  eexists _, _. split.
  { erewrite bind_returned;
      [|by apply updateConversationWithNewSystemPrompt_run].
    apply updateConversationWithNewSystemPrompt_run. cbn [heap].
    rewrite lookup_app_r by lia. by rewrite Nat.sub_diag. }
  cbn [heap]. split.
  - rewrite lookup_app_r by (rewrite length_app; simpl; lia).
    rewrite length_app. cbn [length].
    replace (length (heap σ) + 1 - (length (heap σ) + 1))%nat with 0%nat by lia.
    cbn [lookup list_lookup]. by rewrite rewriteNonEmpty_again.
  - rewrite lookup_app_l by (rewrite length_app; simpl; lia).
    by rewrite lookup_app_l.
Qed.

End RewriteMore.

Lemma updateConversationWithNewSystemPrompt_one_system_witness :
  ∃ (currentMessages : ArrayRef) (σ' : State) (rebuilt : list OpenAiChatMessage),
    updateConversationWithNewSystemPrompt scenarioWorld "You are helpful." []
      0%nat (Some "hi") None
      (startingFrom [systemMessage "first"; systemMessage "second";
                     userMessage "hello"])
    = (Returned currentMessages, σ')
    ∧ heap σ' !! currentMessages = Some rebuilt
    ∧ head rebuilt
      = Some (systemMessage (makeSystemPrompt scenarioWorld "You are helpful." [] None))
    ∧ filter (λ m, role (chat m) = "system") rebuilt
      = [systemMessage (makeSystemPrompt scenarioWorld "You are helpful." [] None)].
Proof.
  apply (updateConversationWithNewSystemPrompt_one_system scenarioWorld
           "You are helpful." [] 0%nat (Some "hi") None
           (startingFrom [systemMessage "first"; systemMessage "second";
                          userMessage "hello"])
           [systemMessage "first"; systemMessage "second"; userMessage "hello"]).
  reflexivity.
Defined.

Lemma updateConversationWithNewSystemPrompt_again_witness :
  ∃ (second : ArrayRef) (σ' : State),
    (first ← updateConversationWithNewSystemPrompt scenarioWorld "One." [] 0%nat
               (Some "hi") None;
     updateConversationWithNewSystemPrompt scenarioWorld "Two." [] first None None)
      (startingFrom (carrying None))
    = (Returned second, σ')
    ∧ heap σ' !! second
      = Some (rewriteNonEmpty (carrying None)
                (makeSystemPrompt scenarioWorld "Two." [] None) (Some "hi"))
    ∧ heap σ' !! 0%nat = Some (carrying None).
Proof.
  apply (updateConversationWithNewSystemPrompt_again scenarioWorld "One." "Two."
           [] [] 0%nat (Some "hi") None None (startingFrom (carrying None))
           (carrying None)).
  reflexivity.
Defined.

(** * More on the dispatch and on the turn *)

Lemma alter_append_nil {A} (r : nat) (h : list (list A)) :
  alter (λ l, l ++ []) r h = h.
Proof. apply list_alter_id. intros l. apply app_nil_r. Qed.

Section DispatchMore.

Context (w : World).

(** A name of the window is found by the lookup of the dispatch. *)
Lemma find_match (n : string) (avail : list ChatGptLlmFunction) :
  n ∈ toolNames avail →
  ∃ f, List.find (λ f, bool_decide (pname (persistedFunction f) = n)) avail = Some f
       ∧ f ∈ avail.
Proof.
  unfold toolNames. induction avail as [|g avail IH]; intros Hn.
  { by apply elem_of_nil in Hn. }
  simpl. destruct (decide (pname (persistedFunction g) = n)) as [Heq|Hne].
  - rewrite bool_decide_true by done. exists g. split; [done|by left].
  - rewrite bool_decide_false by done.
    rewrite fmap_cons in Hn. apply elem_of_cons in Hn as [Hn|Hn]; [by subst n|].
    destruct (IH Hn) as (f & Hf & Hin). exists f. split; [done|by right].
Qed.

(** The dispatch of the catalog search, outcome by outcome. *)
Lemma handleOpenAiFunctionCall_find_run
    (responseMessage : ChatMessage) (call : FunctionCall)
    (avail : list ChatGptLlmFunction) (newMessages : ArrayRef) (σ : State) :
  functionCall responseMessage = Some call →
  List.find (λ f, bool_decide (pname (persistedFunction f) = fc_name call)) avail
  = Some (makeFindApiSpecAction w) →
  handleOpenAiFunctionCall w responseMessage avail newMessages σ
  = match JSON_parse w (fc_arguments call) with
    | None => (Thrown (SyntaxError "Unexpected token in JSON"), σ)
    | Some args =>
        match findApiSpecFunctionDefinition w args with
        | RejectedWith reason =>
            (Thrown (Rejected reason),
             {| heap := heap σ;
                trace := trace σ ++ [EvFindApiSpecFunctionDefinition args] |})
        | Fulfilled found =>
            (Returned newMessages,
             {| heap :=
                  alter
                    (λ l, l ++ [asOpenAiChatMessage responseMessage;
                                functionMessage find_api_spec_action
                                  (foundFunctionsContent found)
                                  ((persistedFunction <$> avail) ++ found)])
                    newMessages (heap σ);
                trace := trace σ ++ [EvFindApiSpecFunctionDefinition args] |})
        end
    end.
Proof.
  intros Hcall Hfind. unfold handleOpenAiFunctionCall. rewrite Hcall, Hfind.
  change (isDynamic (makeFindApiSpecAction w)) with false. cbv iota.
  rewrite bool_decide_true by reflexivity.
  destruct (JSON_parse w (fc_arguments call)) as [args|]; [|reflexivity].
  unfold mbind, M_bind, mret, M_ret. cbn [function makeFindApiSpecAction].
  unfold mbind, M_bind, mret, M_ret, await.
  destruct (findApiSpecFunctionDefinition w args); reflexivity.
Qed.

(** The dispatch of a dynamic function, outcome by outcome. *)
Lemma handleOpenAiFunctionCall_dynamic_run
    (responseMessage : ChatMessage) (call : FunctionCall)
    (avail : list ChatGptLlmFunction) (newMessages : ArrayRef) (σ : State)
    (d : PersistedFunctionDefinition) (static : HttpRequestArgs)
    (credentials : HttpApiCredentials) :
  functionCall responseMessage = Some call →
  List.find (λ f, bool_decide (pname (persistedFunction f) = fc_name call)) avail
  = Some (makeDynamicHttpLlmFunctionFromFunctionDefinition w d static credentials) →
  let request :=
    EvExecuteHttpApiRequest (httpVerb d) (path d) static (JStr (fc_arguments call))
      credentials in
  handleOpenAiFunctionCall w responseMessage avail newMessages σ
  = match executeHttpApiRequest w (httpVerb d) (path d) static
            (JStr (fc_arguments call)) credentials with
    | RejectedWith reason =>
        (Thrown (Rejected reason),
         {| heap := heap σ; trace := trace σ ++ [request] |})
    | Fulfilled response =>
        (Returned newMessages,
         {| heap :=
              alter
                (λ l, l ++ [asOpenAiChatMessage responseMessage;
                            functionMessage (pname d)
                              match response with
                              | JStr s => s
                              | _ => JSON_stringify w (UValue response)
                              end
                              (persistedFunction <$> avail)])
                newMessages (heap σ);
            trace := trace σ ++ [request] |})
    end.
Proof.
  intros Hcall Hfind request. unfold handleOpenAiFunctionCall.
  rewrite Hcall, Hfind.
  change (isDynamic (makeDynamicHttpLlmFunctionFromFunctionDefinition w d static
                       credentials)) with true.
  cbv iota. unfold mbind, M_bind, mret, M_ret.
  cbn [function fn_name makeDynamicHttpLlmFunctionFromFunctionDefinition].
  unfold mbind, M_bind, mret, M_ret, await.
  destruct (executeHttpApiRequest w _ _ _ _ _) as [response|reason];
    [|reflexivity].
  destruct response; reflexivity.
Qed.

(** What a dispatch over a window of the program does to the state: it
    pushes nothing or two messages to the array it is given and makes at
    most one call to the outside; it throws only with nothing pushed. *)
Lemma handleOpenAiFunctionCall_effect
    (responseMessage : ChatMessage) (avail : list ChatGptLlmFunction)
    (newMessages : ArrayRef) (σ : State) static credentials :
  (∀ f, f ∈ avail →
     f = makeFindApiSpecAction w
     ∨ ∃ d, f = makeDynamicHttpLlmFunctionFromFunctionDefinition w d static credentials) →
  ∃ extra rest,
    snd (handleOpenAiFunctionCall w responseMessage avail newMessages σ)
    = {| heap := alter (λ l, l ++ extra) newMessages (heap σ);
         trace := trace σ ++ rest |}
    ∧ (extra = [] ∨ ∃ result, extra = [asOpenAiChatMessage responseMessage; result])
    ∧ (length rest ≤ 1)%nat
    ∧ offeredFunctions rest = []
    ∧ (fst (handleOpenAiFunctionCall w responseMessage avail newMessages σ)
       = Returned newMessages
       ∨ ∃ e, fst (handleOpenAiFunctionCall w responseMessage avail newMessages σ)
              = Thrown e ∧ extra = []).
Proof.
  intros Hwindow.
  assert (Hsame : σ = {| heap := alter (λ l, l ++ []) newMessages (heap σ);
                         trace := trace σ ++ [] |}).
  { rewrite alter_append_nil, app_nil_r. by destruct σ. }
  destruct (functionCall responseMessage) as [call|] eqn:Hcall.
  2:{ unfold handleOpenAiFunctionCall. rewrite Hcall. exists [], [].
      cbn [fst snd throw]. split; [exact Hsame|]. split; [by left|].
      split; [simpl; lia|]. split; [reflexivity|]. right. by eexists. }
  destruct (List.find (λ f, bool_decide (pname (persistedFunction f) = fc_name call))
              avail) as [f|] eqn:Hfind.
  2:{ unfold handleOpenAiFunctionCall. rewrite Hcall, Hfind. exists [], [].
      cbn [fst snd]. split; [exact Hsame|]. split; [by left|].
      split; [simpl; lia|]. split; [reflexivity|]. by left. }
  pose proof Hfind as Hin. apply List.find_some in Hin as [Hin _].
  apply list_elem_of_In in Hin.
  destruct (Hwindow f Hin) as [->|[d ->]].
  - rewrite (handleOpenAiFunctionCall_find_run _ call _ _ _ Hcall Hfind).
    destruct (JSON_parse w (fc_arguments call)) as [args|].
    + destruct (findApiSpecFunctionDefinition w args) as [found|reason].
      * eexists _, [_]. cbn [fst snd]. split; [reflexivity|].
        split; [right; by eexists|]. split; [simpl; lia|].
        split; [reflexivity|]. by left.
      * exists [], [EvFindApiSpecFunctionDefinition args]. cbn [fst snd].
        rewrite alter_append_nil. split; [reflexivity|]. split; [by left|].
        split; [simpl; lia|]. split; [reflexivity|]. right. by eexists.
    + exists [], []. cbn [fst snd]. split; [exact Hsame|]. split; [by left|].
      split; [simpl; lia|]. split; [reflexivity|]. right. by eexists.
  - rewrite (handleOpenAiFunctionCall_dynamic_run _ call _ _ _ _ _ _ Hcall Hfind).
    cbv zeta.
    destruct (executeHttpApiRequest w _ _ _ _ _) as [response|reason].
    + eexists _, [_]. cbn [fst snd]. split; [reflexivity|].
      split; [right; by eexists|]. split; [simpl; lia|].
      split; [reflexivity|]. by left.
    + eexists [], [_]. cbn [fst snd].
      rewrite alter_append_nil. split; [reflexivity|]. split; [by left|].
      split; [simpl; lia|]. split; [reflexivity|]. right. by eexists.
Qed.

(** X12. The errors of a dispatch pass to the caller with nothing pushed
    to the conversation: arguments of a catalog search that do not parse
    throw a SyntaxError before the catalog is called, with the state as it
    was; a rejection of the catalog or of the downstream API is thrown on,
    with the call recorded and the heap as it was. *)
Theorem handleOpenAiFunctionCall_errors
    (responseMessage : ChatMessage) (call : FunctionCall)
    (avail : list ChatGptLlmFunction) (newMessages : ArrayRef) (σ : State) :
  functionCall responseMessage = Some call →
  (List.find (λ f, bool_decide (pname (persistedFunction f) = fc_name call)) avail
   = Some (makeFindApiSpecAction w) →
   JSON_parse w (fc_arguments call) = None →
   ∃ msg, handleOpenAiFunctionCall w responseMessage avail newMessages σ
          = (Thrown (SyntaxError msg), σ))
  ∧ (∀ args reason,
       List.find (λ f, bool_decide (pname (persistedFunction f) = fc_name call)) avail
       = Some (makeFindApiSpecAction w) →
       JSON_parse w (fc_arguments call) = Some args →
       findApiSpecFunctionDefinition w args = RejectedWith reason →
       handleOpenAiFunctionCall w responseMessage avail newMessages σ
       = (Thrown (Rejected reason),
          {| heap := heap σ;
             trace := trace σ ++ [EvFindApiSpecFunctionDefinition args] |}))
  ∧ (∀ d static credentials reason,
       List.find (λ f, bool_decide (pname (persistedFunction f) = fc_name call)) avail
       = Some (makeDynamicHttpLlmFunctionFromFunctionDefinition w d static credentials) →
       executeHttpApiRequest w (httpVerb d) (path d) static (JStr (fc_arguments call))
         credentials = RejectedWith reason →
       handleOpenAiFunctionCall w responseMessage avail newMessages σ
       = (Thrown (Rejected reason),
          {| heap := heap σ;
             trace :=
               trace σ ++ [EvExecuteHttpApiRequest (httpVerb d) (path d) static
                             (JStr (fc_arguments call)) credentials] |})).
Proof.
  intros Hcall. split; [|split].
  - intros Hfind Hparse.
    rewrite (handleOpenAiFunctionCall_find_run _ call _ _ _ Hcall Hfind), Hparse.
    by eexists.
  - intros args reason Hfind Hparse Hreject.
    by rewrite (handleOpenAiFunctionCall_find_run _ call _ _ _ Hcall Hfind),
         Hparse, Hreject.
  - intros d static credentials reason Hfind Hreject.
    rewrite (handleOpenAiFunctionCall_dynamic_run _ call _ _ _ _ _ _ Hcall Hfind).
    cbv zeta. by rewrite Hreject.
Qed.

(** X13. Over a window of the program a call that names a function of the
    window is never dropped in silence: the dispatch either throws with
    nothing pushed, or makes one call to the outside and pushes the echo of
    the request and one function message. *)
Theorem handleOpenAiFunctionCall_matched
    (responseMessage : ChatMessage) (call : FunctionCall)
    (D : list PersistedFunctionDefinition) (static : HttpRequestArgs) (max : Z)
    (credentials : HttpApiCredentials) (newMessages : ArrayRef) (σ : State) :
  let avail :=
    makeAvailableLlmFunctionsFromFunctionDefinitions w D (baseFunctions w) static max
      credentials in
  functionCall responseMessage = Some call →
  fc_name call ∈ toolNames avail →
  (∃ e σ',
     handleOpenAiFunctionCall w responseMessage avail newMessages σ = (Thrown e, σ')
     ∧ heap σ' = heap σ)
  ∨ (∃ ev result,
       handleOpenAiFunctionCall w responseMessage avail newMessages σ
       = (Returned newMessages,
          {| heap :=
               alter (λ l, l ++ [asOpenAiChatMessage responseMessage; result])
                 newMessages (heap σ);
             trace := trace σ ++ [ev] |})
       ∧ role (chat result) = "function"
       ∧ name (chat result) = Some (fc_name call)).
Proof.
  intros avail Hcall Hname.
  destruct (find_match _ _ Hname) as (f & Hfind & Hin).
  pose proof Hfind as Hmatch. apply List.find_some in Hmatch as [_ Hmatch].
  apply bool_decide_eq_true in Hmatch.
  destruct (window_members w D static max credentials f Hin) as [->|[d ->]].
  - rewrite (handleOpenAiFunctionCall_find_run _ call _ _ _ Hcall Hfind).
    destruct (JSON_parse w (fc_arguments call)) as [args|];
      [|left; by eexists _, _].
    destruct (findApiSpecFunctionDefinition w args) as [found|reason];
      [|left; by eexists _, _].
    right. eexists _, _. split; [reflexivity|]. split; [reflexivity|].
    simpl. by rewrite <- Hmatch.
  - rewrite (handleOpenAiFunctionCall_dynamic_run _ call _ _ _ _ _ _ Hcall Hfind).
    cbv zeta.
    destruct (executeHttpApiRequest w _ _ _ _ _) as [response|reason];
      [|left; by eexists _, _].
    right. eexists _, _. split; [reflexivity|]. split; [reflexivity|].
    simpl. by rewrite <- Hmatch.
Qed.

End DispatchMore.

Lemma handleOpenAiFunctionCall_errors_witness :
  ∃ msg,
    handleOpenAiFunctionCall scenarioWorld
      (assistantCalls find_api_spec_action "not json")
      (baseFunctions scenarioWorld) 0%nat (startingFrom (carrying None))
    = (Thrown (SyntaxError msg), startingFrom (carrying None)).
Proof.
  apply (handleOpenAiFunctionCall_errors scenarioWorld
           (assistantCalls find_api_spec_action "not json")
           {| fc_name := find_api_spec_action; fc_arguments := "not json" |}
           (baseFunctions scenarioWorld) 0%nat (startingFrom (carrying None))).
  - reflexivity.
  - reflexivity.
  - reflexivity.
Defined.

Lemma handleOpenAiFunctionCall_matched_witness :
  (∃ e σ',
     handleOpenAiFunctionCall scenarioWorld
       (assistantCalls "getWeather" parisArguments)
       (makeAvailableLlmFunctionsFromFunctionDefinitions scenarioWorld [getWeather]
          (baseFunctions scenarioWorld) emptyHttpRequestArgs 3 JNull)
       0%nat (startingFrom (carrying None))
     = (Thrown e, σ')
     ∧ heap σ' = heap (startingFrom (carrying None)))
  ∨ (∃ ev result,
       handleOpenAiFunctionCall scenarioWorld
         (assistantCalls "getWeather" parisArguments)
         (makeAvailableLlmFunctionsFromFunctionDefinitions scenarioWorld [getWeather]
            (baseFunctions scenarioWorld) emptyHttpRequestArgs 3 JNull)
         0%nat (startingFrom (carrying None))
       = (Returned 0%nat,
          {| heap :=
               alter
                 (λ l, l ++ [asOpenAiChatMessage
                               (assistantCalls "getWeather" parisArguments);
                             result])
                 0%nat (heap (startingFrom (carrying None)));
             trace := trace (startingFrom (carrying None)) ++ [ev] |})
       ∧ role (chat result) = "function"
       ∧ name (chat result) = Some "getWeather").
Proof.
  apply (handleOpenAiFunctionCall_matched scenarioWorld
           (assistantCalls "getWeather" parisArguments)
           {| fc_name := "getWeather"; fc_arguments := parisArguments |}
           [getWeather] emptyHttpRequestArgs 3 JNull 0%nat
           (startingFrom (carrying None))).
  - reflexivity.
  - apply (bool_decide_unpack _). vm_compute. exact I.
Defined.

Section TurnMore.

Context (w : World) (params : OpenAiApiChatParams).

(** The state after a turn on a conversation that ends with [m]. *)
Lemma answerAwaited_effect (p : ApiChatLlmAnswerAwaitedParams) (σ : State)
    (pre : list OpenAiChatMessage) (m : OpenAiChatMessage) :
  heap σ !! messages p = Some (pre ++ [m]) →
  let avail :=
    makeAvailableLlmFunctionsFromFunctionDefinitions w (default [] (functions m))
      (baseFunctions w) (default emptyHttpRequestArgs (staticHttpRequestArgs p))
      (maxNumDynamic params) (apiCredentials p) in
  let rebuilt :=
    rewriteNonEmpty (pre ++ [m])
      (makeSystemPrompt w (baseSystemPrompt params) avail (staticHttpRequestArgs p))
      (query p) in
  let messageOptions :=
    {| mo_options := options p;
       mo_functions := (λ f, definition (persistedFunction f)) <$> avail;
       mo_functionCall := "auto" |} in
  ∃ extra rest,
    snd (answerAwaited w params p σ)
    = {| heap := heap σ ++ [rebuilt ++ extra];
         trace :=
           trace σ
           ++ EvGetChatCompletions (deploymentName params) (chat <$> rebuilt)
                messageOptions :: rest |}
    ∧ (length extra ≤ 2)%nat
    ∧ (length rest ≤ 1)%nat
    ∧ offeredFunctions rest = []
    ∧ (fst (answerAwaited w params p σ) = Returned (length (heap σ))
       ∨ ∃ e, fst (answerAwaited w params p σ) = Thrown e ∧ extra = []).
Proof.
  intros Hmsgs avail rebuilt messageOptions.
  rewrite (answerAwaited_run w params p σ pre m Hmsgs).
  fold avail. fold rebuilt. fold messageOptions.
  assert (Hnone : ∀ e,
    ∃ extra rest,
      {| heap := heap σ ++ [rebuilt];
         trace := trace σ ++ [EvGetChatCompletions (deploymentName params)
                                (chat <$> rebuilt) messageOptions] |}
      = {| heap := heap σ ++ [rebuilt ++ extra];
           trace := trace σ ++ EvGetChatCompletions (deploymentName params)
                                 (chat <$> rebuilt) messageOptions :: rest |}
      ∧ (length extra ≤ 2)%nat ∧ (length rest ≤ 1)%nat
      ∧ offeredFunctions rest = []
      ∧ (Thrown e = Returned (length (heap σ))
         ∨ ∃ e', @Thrown ArrayRef e = Thrown e' ∧ extra = [])).
  { intros e. exists [], []. rewrite app_nil_r.
    split; [reflexivity|]. split; [simpl; lia|]. split; [simpl; lia|].
    split; [reflexivity|]. right. by eexists. }
  destruct (getChatCompletions w _ _ _) as [response|reason];
    [|cbn [fst snd]; apply Hnone].
  destruct (choices response) as [|[[responseMessage|]] others];
    [cbn [fst snd]; apply Hnone| |cbn [fst snd]; apply Hnone].
  destruct (functionCall responseMessage) as [call|].
  - edestruct (handleOpenAiFunctionCall_effect w responseMessage avail
                 (length (heap σ))) as (extra & rest & -> & Hextra & Hrest & Hoffer & Hfst).
    { intros f Hf. apply window_members in Hf. exact Hf. }
    exists extra, rest. cbn [heap trace]. rewrite alter_last, <- app_assoc.
    split; [reflexivity|].
    split; [destruct Hextra as [->|[result ->]]; simpl; lia|].
    split; [exact Hrest|]. split; [exact Hoffer|exact Hfst].
  - eexists [_], []. cbn [fst snd heap trace].
    split; [reflexivity|]. split; [simpl; lia|]. split; [simpl; lia|].
    split; [reflexivity|]. by left.
Qed.

(** X14. A turn on a conversation that is not empty leaves every array
    of the caller as it was and allocates one array: the rebuilt
    conversation followed by at most two messages. When the turn returns,
    it returns that array; when it throws, nothing follows the rebuilt
    conversation. *)
Theorem answerAwaited_heap (p : ApiChatLlmAnswerAwaitedParams) (σ : State)
    (pre : list OpenAiChatMessage) (m : OpenAiChatMessage) :
  heap σ !! messages p = Some (pre ++ [m]) →
  let avail :=
    makeAvailableLlmFunctionsFromFunctionDefinitions w (default [] (functions m))
      (baseFunctions w) (default emptyHttpRequestArgs (staticHttpRequestArgs p))
      (maxNumDynamic params) (apiCredentials p) in
  let rebuilt :=
    rewriteNonEmpty (pre ++ [m])
      (makeSystemPrompt w (baseSystemPrompt params) avail (staticHttpRequestArgs p))
      (query p) in
  ∃ extra,
    heap (snd (answerAwaited w params p σ)) = heap σ ++ [rebuilt ++ extra]
    ∧ (length extra ≤ 2)%nat
    ∧ (∀ i a, heap σ !! i = Some a →
              heap (snd (answerAwaited w params p σ)) !! i = Some a)
    ∧ (fst (answerAwaited w params p σ) = Returned (length (heap σ))
       ∨ ∃ e, fst (answerAwaited w params p σ) = Thrown e ∧ extra = []).
Proof.
  intros Hmsgs avail rebuilt.
  destruct (answerAwaited_effect p σ pre m Hmsgs)
    as (extra & rest & Hsnd & Hextra & _ & _ & Hfst).
  exists extra. rewrite Hsnd. cbn [heap].
  split; [reflexivity|]. split; [exact Hextra|]. split; [|exact Hfst].
  intros i a Hi. rewrite lookup_app_l; [done|]. by apply lookup_lt_Some in Hi.
Qed.

(** X15. A turn on a conversation that is not empty makes exactly one
    request to the completion service, before any other call: it sends
    the four completion fields of the rebuilt conversation, the
    definitions of the window and the mode [auto]; at most one other call
    to the outside follows. *)
Theorem answerAwaited_trace (p : ApiChatLlmAnswerAwaitedParams) (σ : State)
    (pre : list OpenAiChatMessage) (m : OpenAiChatMessage) :
  heap σ !! messages p = Some (pre ++ [m]) →
  let avail :=
    makeAvailableLlmFunctionsFromFunctionDefinitions w (default [] (functions m))
      (baseFunctions w) (default emptyHttpRequestArgs (staticHttpRequestArgs p))
      (maxNumDynamic params) (apiCredentials p) in
  let rebuilt :=
    rewriteNonEmpty (pre ++ [m])
      (makeSystemPrompt w (baseSystemPrompt params) avail (staticHttpRequestArgs p))
      (query p) in
  ∃ rest,
    trace (snd (answerAwaited w params p σ))
    = trace σ
      ++ EvGetChatCompletions (deploymentName params) (chat <$> rebuilt)
           {| mo_options := options p;
              mo_functions := (λ f, definition (persistedFunction f)) <$> avail;
              mo_functionCall := "auto" |}
         :: rest
    ∧ (length rest ≤ 1)%nat
    ∧ length (offeredFunctions (trace (snd (answerAwaited w params p σ))))
      = S (length (offeredFunctions (trace σ))).
Proof.
  intros Hmsgs avail rebuilt.
  destruct (answerAwaited_effect p σ pre m Hmsgs)
    as (extra & rest & Hsnd & _ & Hrest & Hoffer & _).
  exists rest. rewrite Hsnd. cbn [trace].
  split; [reflexivity|]. split; [exact Hrest|].
  unfold offeredFunctions in *.
  rewrite (omap_app _ (trace σ)), length_app.
  match goal with
  | |- context [omap ?f (?ev :: rest)] =>
      change (omap f (ev :: rest)) with (omap f [ev] ++ omap f rest)
  end.
  rewrite Hoffer. simpl. lia.
Qed.

End TurnMore.

Section TurnOutcomes.

Context (w : World) (params : OpenAiApiChatParams).

(** X16. When the first choice of the completion service is a message
    without function call, the turn returns a new array: the rebuilt
    conversation followed by that message, which carries the definitions
    of the window of the turn; the other choices are ignored and nothing
    else is called. *)
Theorem answerAwaited_plain_reply (p : ApiChatLlmAnswerAwaitedParams) (σ : State)
    (pre : list OpenAiChatMessage) (m : OpenAiChatMessage)
    (reply : ChatMessage) (others : list ChatChoice) :
  let avail :=
    makeAvailableLlmFunctionsFromFunctionDefinitions w (default [] (functions m))
      (baseFunctions w) (default emptyHttpRequestArgs (staticHttpRequestArgs p))
      (maxNumDynamic params) (apiCredentials p) in
  let rebuilt :=
    rewriteNonEmpty (pre ++ [m])
      (makeSystemPrompt w (baseSystemPrompt params) avail (staticHttpRequestArgs p))
      (query p) in
  heap σ !! messages p = Some (pre ++ [m]) →
  functionCall reply = None →
  getChatCompletions w (deploymentName params) (chat <$> rebuilt)
    {| mo_options := options p;
       mo_functions := (λ f, definition (persistedFunction f)) <$> avail;
       mo_functionCall := "auto" |}
  = Fulfilled {| choices := {| message := Some reply |} :: others |} →
  answerAwaited w params p σ
  = (Returned (length (heap σ)),
     {| heap :=
          heap σ
          ++ [rebuilt
              ++ [{| chat := reply;
                     functions :=
                       Some (getMaxAvailableFunctionDefinitions
                               (default [] (functions m))
                               [findApiSpecActionPersisted] (maxNumDynamic params)) |}]];
        trace :=
          trace σ
          ++ [EvGetChatCompletions (deploymentName params) (chat <$> rebuilt)
                {| mo_options := options p;
                   mo_functions := (λ f, definition (persistedFunction f)) <$> avail;
                   mo_functionCall := "auto" |}] |}).
Proof.
  intros avail rebuilt Hmsgs Hplain Hanswer.
  rewrite (answerAwaited_run w params p σ pre m Hmsgs).
  fold avail. fold rebuilt. rewrite Hanswer.
  cbn [choices]. rewrite Hplain. subst avail.
  by rewrite makeAvailableLlmFunctionsFromFunctionDefinitions_persisted.
Qed.

(** X17. A rejection of the completion service is thrown on by the turn:
    the rebuilt conversation is allocated, the one request is recorded,
    nothing is appended and nothing else is called. *)
Theorem answerAwaited_rejected (p : ApiChatLlmAnswerAwaitedParams) (σ : State)
    (pre : list OpenAiChatMessage) (m : OpenAiChatMessage) (reason : JsValue) :
  let avail :=
    makeAvailableLlmFunctionsFromFunctionDefinitions w (default [] (functions m))
      (baseFunctions w) (default emptyHttpRequestArgs (staticHttpRequestArgs p))
      (maxNumDynamic params) (apiCredentials p) in
  let rebuilt :=
    rewriteNonEmpty (pre ++ [m])
      (makeSystemPrompt w (baseSystemPrompt params) avail (staticHttpRequestArgs p))
      (query p) in
  heap σ !! messages p = Some (pre ++ [m]) →
  getChatCompletions w (deploymentName params) (chat <$> rebuilt)
    {| mo_options := options p;
       mo_functions := (λ f, definition (persistedFunction f)) <$> avail;
       mo_functionCall := "auto" |}
  = RejectedWith reason →
  answerAwaited w params p σ
  = (Thrown (Rejected reason),
     {| heap := heap σ ++ [rebuilt];
        trace :=
          trace σ
          ++ [EvGetChatCompletions (deploymentName params) (chat <$> rebuilt)
                {| mo_options := options p;
                   mo_functions := (λ f, definition (persistedFunction f)) <$> avail;
                   mo_functionCall := "auto" |}] |}).
Proof.
  intros avail rebuilt Hmsgs Hanswer.
  rewrite (answerAwaited_run w params p σ pre m Hmsgs).
  fold avail. fold rebuilt. by rewrite Hanswer.
Qed.

(** X18. What the catalog search finds can be called in the next turn:
    the function message of the search carries the definitions of the
    window followed by the definitions found, and the window computed from
    them holds, for every definition found under another name than
    [find_api_spec_action], a dynamic function of that name, whatever the
    cap. *)
Theorem found_functions_available
    (avail : list ChatGptLlmFunction) (found : list PersistedFunctionDefinition)
    (d : PersistedFunctionDefinition) (static : HttpRequestArgs) (max : Z)
    (credentials : HttpApiCredentials) :
  d ∈ found →
  pname d ≠ find_api_spec_action →
  ∃ f,
    f ∈ makeAvailableLlmFunctionsFromFunctionDefinitions w
          ((persistedFunction <$> avail) ++ found) (baseFunctions w) static max
          credentials
    ∧ fn_name f = pname d
    ∧ isDynamic f = true.
Proof.
  intros Hd Hname.
  set (carried := (persistedFunction <$> avail) ++ found).
  assert (pname d
          ∈ pname <$> getMaxAvailableFunctionDefinitions carried
                        [findApiSpecActionPersisted] max) as Hin.
  { apply getMaxAvailableFunctionDefinitions_not_base_kept.
    - apply elem_of_app. by right.
    - simpl. by rewrite list_elem_of_singleton. }
  rewrite <- (makeAvailableLlmFunctionsFromFunctionDefinitions_persisted w carried
                static max credentials) in Hin.
  rewrite <- list_fmap_compose in Hin.
  apply list_elem_of_fmap in Hin as (f & Hf & Hin). simpl in Hf.
  exists f. split; [exact Hin|].
  destruct (window_members w carried static max credentials f Hin) as [->|[d' ->]].
  - by destruct Hname.
  - split; [by rewrite Hf|reflexivity].
Qed.

End TurnOutcomes.

Lemma answerAwaited_heap_witness :
  ∃ extra,
    heap (snd (answerAwaited scenarioWorld scenarioParams (turn "travel")
                 (startingFrom (carrying None))))
    = heap (startingFrom (carrying None))
      ++ [rewriteNonEmpty (carrying None)
            (makeSystemPrompt scenarioWorld (baseSystemPrompt scenarioParams)
               (baseFunctions scenarioWorld) None)
            (Some "travel")
          ++ extra]
    ∧ (length extra ≤ 2)%nat.
Proof.
  destruct (answerAwaited_heap scenarioWorld scenarioParams (turn "travel")
              (startingFrom (carrying None)) []
              {| chat := assistantSays "How can I help?"; functions := None |})
    as (extra & Hheap & Hlen & _); [reflexivity|].
  exists extra. split; [exact Hheap|exact Hlen].
Defined.

Lemma answerAwaited_trace_witness :
  length (offeredFunctions
            (trace (snd (answerAwaited scenarioWorld scenarioParams
                           (turn "weather in Paris")
                           (startingFrom (carrying (Some [getWeather])))))))
  = 1%nat.
Proof.
  destruct (answerAwaited_trace scenarioWorld scenarioParams (turn "weather in Paris")
              (startingFrom (carrying (Some [getWeather]))) []
              {| chat := assistantSays "How can I help?";
                 functions := Some [getWeather] |})
    as (rest & _ & _ & Hone); [reflexivity|].
  exact Hone.
Defined.

Lemma answerAwaited_plain_reply_witness :
  (heap (snd (answerAwaited scenarioWorld scenarioParams (turn "hi")
                (startingFrom (carrying (Some [getWeather])))))
   !! 1%nat) ≫= last
  = Some {| chat := assistantSays "Hello!";
            functions := Some [findApiSpecActionPersisted; getWeather] |}.
Proof.
  rewrite (answerAwaited_plain_reply scenarioWorld scenarioParams (turn "hi")
             (startingFrom (carrying (Some [getWeather]))) []
             {| chat := assistantSays "How can I help?"; functions := Some [getWeather] |}
             (assistantSays "Hello!") []).
  - reflexivity.
  - reflexivity.
  - reflexivity.
  - reflexivity.
Defined.

Lemma answerAwaited_rejected_witness :
  fst (answerAwaited
         {| getChatCompletions := λ _ _ _, RejectedWith (JStr "429");
            executeHttpApiRequest := executeHttpApiRequest scenarioWorld;
            findApiSpecFunctionDefinition := findApiSpecFunctionDefinition scenarioWorld;
            JSON_parse := JSON_parse scenarioWorld;
            JSON_stringify := JSON_stringify scenarioWorld;
            yaml_stringify := yaml_stringify scenarioWorld |}
         scenarioParams (turn "hi") (startingFrom (carrying None)))
  = Thrown (Rejected (JStr "429")).
Proof.
  rewrite (answerAwaited_rejected _ scenarioParams (turn "hi")
             (startingFrom (carrying None)) []
             {| chat := assistantSays "How can I help?"; functions := None |}
             (JStr "429")).
  - reflexivity.
  - reflexivity.
  - reflexivity.
Defined.

Lemma found_functions_available_witness :
  ∃ f,
    f ∈ makeAvailableLlmFunctionsFromFunctionDefinitions scenarioWorld
          ((persistedFunction <$> baseFunctions scenarioWorld)
           ++ [getWeather; bookFlight])
          (baseFunctions scenarioWorld) emptyHttpRequestArgs 0 JNull
    ∧ fn_name f = pname bookFlight
    ∧ isDynamic f = true.
Proof.
  apply (found_functions_available scenarioWorld (baseFunctions scenarioWorld)
           [getWeather; bookFlight] bookFlight emptyHttpRequestArgs 0 JNull).
  - repeat constructor.
  - discriminate.
Defined.

(** * The conversation service: proofs *)

Lemma prefix_slash (path : string) :
  String.prefix "/" path = true ↔ ∃ rest, path = "/" +:+ rest.
Proof.
  destruct path as [|c rest].
  - split; [discriminate|]. intros [rest Hrest].
    change ("/" +:+ rest) with (String "/" rest) in Hrest. discriminate.
  - change (String.prefix "/" (String c rest))
      with (if Ascii.ascii_dec "/" c then String.prefix "" rest else false).
    destruct (Ascii.ascii_dec "/" c) as [<-|Hne].
    + split; [|by destruct rest]. intros _. by exists rest.
    + split; [discriminate|]. intros [rest' Hrest].
      change ("/" +:+ rest') with (String "/" rest') in Hrest.
      injection Hrest as Hc _. by destruct Hne.
Qed.

(** X19. [getUrl] returns the server URL followed by the path exactly for
    the paths that start with a slash and throws an error that names the
    path for every other one, the empty path included; the paths that the
    three methods of the service build are all accepted, whatever the
    identifiers. *)
Theorem getUrl_slash (serverUrl : string) :
  (∀ path url,
     ConversationService.getUrl serverUrl path = Returned url
     ↔ (∃ rest, path = "/" +:+ rest) ∧ url = serverUrl +:+ path)
  ∧ (∀ path,
       (¬ ∃ rest, path = "/" +:+ rest) →
       ∃ msg, ConversationService.getUrl serverUrl path = Thrown (Error msg)
              ∧ occursIn path msg)
  ∧ (∀ conversationId messageId,
       ConversationService.getUrl serverUrl ConversationService.createConversationPath
       = Returned (serverUrl +:+ "/conversations")
       ∧ ConversationService.getUrl serverUrl
           (ConversationService.addMessagePath conversationId)
         = Returned (serverUrl +:+ "/conversations/" +:+ conversationId +:+ "/messages")
       ∧ ConversationService.getUrl serverUrl
           (ConversationService.rateMessagePath conversationId messageId)
         = Returned (serverUrl +:+ "/conversations/" +:+ conversationId
                     +:+ "/messages/" +:+ messageId +:+ "/rating}")).
Proof.
  split; [|split].
  - intros path url. unfold ConversationService.getUrl.
    destruct (String.prefix "/" path) eqn:Hprefix; simpl.
    + apply prefix_slash in Hprefix. split.
      * intros [= <-]. by split.
      * by intros [_ ->].
    + split; [discriminate|]. intros [Hslash _].
      apply prefix_slash in Hslash. congruence.
  - intros path Hno. unfold ConversationService.getUrl.
    destruct (String.prefix "/" path) eqn:Hprefix; simpl.
    + by apply prefix_slash in Hprefix.
    + eexists. split; [reflexivity|]. by eexists _, _.
  - intros conversationId messageId. by repeat split.
Qed.

(** * The mock generator: proofs *)

Section MockProofs.

Context (isConversationTestCase : Mock.TestCase → bool) (trigger : string).

Lemma filterNotFailed_returns (acc l : list Mock.TestCase) :
  Forall (λ testCase, Mock.hasFirstMessage testCase = true) l →
  Mock.filterNotFailed trigger acc l
  = Returned
      (List.filter (λ testCase, negb (Mock.triggers trigger testCase)) l,
       acc ++ List.filter (Mock.triggers trigger) l).
Proof.
  intros Hall. revert acc.
  induction Hall as [|testCase l Hfirst _ IH]; intros acc.
  { simpl. by rewrite app_nil_r. }
  unfold Mock.hasFirstMessage in Hfirst.
  cbn [Mock.filterNotFailed List.filter].
  assert (Htriggers :
    Mock.triggers trigger testCase
    = match Mock.messages testCase with
      | Some (first :: _) => bool_decide (Mock.content first = trigger)
      | _ => false
      end) by reflexivity.
  rewrite !Htriggers. clear Htriggers.
  destruct (Mock.messages testCase) as [[|first others]|]; [done| |done].
  destruct (bool_decide (Mock.content first = trigger)); cbn [negb].
  - rewrite IH. by rewrite <- app_assoc.
  - by rewrite IH.
Qed.

Lemma filterNotFailed_throws (acc good : list Mock.TestCase) (bad : Mock.TestCase)
    (rest : list Mock.TestCase) :
  Forall (λ testCase, Mock.hasFirstMessage testCase = true) good →
  Mock.hasFirstMessage bad = false →
  Mock.filterNotFailed trigger acc (good ++ bad :: rest)
  = Thrown
      match Mock.messages bad with
      | None => AssertionError "something is wrong here"
      | Some _ => TypeError "Cannot read properties of undefined (reading 'content')"
      end.
Proof.
  intros Hgood Hbad. revert acc.
  induction Hgood as [|testCase good Hfirst _ IH]; intros acc.
  - simpl. unfold Mock.hasFirstMessage in Hbad.
    by destruct (Mock.messages bad) as [[|first others]|].
  - unfold Mock.hasFirstMessage in Hfirst.
    rewrite <- app_comm_cons. cbn [Mock.filterNotFailed].
    destruct (Mock.messages testCase) as [[|first others]|]; [done| |done].
    destruct (bool_decide (Mock.content first = trigger)); by rewrite IH.
Qed.

Lemma filter_conversation_wellformed (testCases : list Mock.TestCase) :
  Forall (λ testCase, isConversationTestCase testCase = true →
                      Mock.hasFirstMessage testCase = true) testCases →
  Forall (λ testCase, Mock.hasFirstMessage testCase = true)
    (List.filter (λ testCase, isConversationTestCase testCase) testCases).
Proof.
  induction 1 as [|testCase l Hone _ IH]; [constructor|].
  simpl. destruct (isConversationTestCase testCase) eqn:Hconv; [|exact IH].
  constructor; [by apply Hone|exact IH].
Qed.

Lemma filter_filter_andb {A} (f g : A → bool) (l : list A) :
  List.filter g (List.filter f l) = List.filter (λ x, f x && g x) l.
Proof.
  induction l as [|x l IH]; [reflexivity|].
  simpl. destruct (f x); simpl; [destruct (g x)|]; by rewrite IH.
Qed.

(** X20. When the messages of every conversation test case are an array
    that is not empty, the mock generator returns, and it splits the
    conversation test cases in two: those whose first message is the
    trigger are the failed cases, in their order, and each of the others
    gives one generated conversation, in their order, with its messages
    followed by the test message, under the run id it was given. Test
    cases that are not conversation test cases appear in neither. *)
Theorem mockGenerateDataFunc_partition
    (runId : nat) (testCases : list Mock.TestCase) (nextId : nat) :
  Forall (λ testCase, isConversationTestCase testCase = true →
                      Mock.hasFirstMessage testCase = true) testCases →
  ∃ result,
    Mock.mockGenerateDataFunc isConversationTestCase trigger runId testCases nextId
    = Returned result
    ∧ Mock.failedCases result
      = List.filter
          (λ testCase, isConversationTestCase testCase
                       && Mock.triggers trigger testCase) testCases
    ∧ Mock.data <$> Mock.generatedData result
      = (λ testCase, default [] (Mock.messages testCase) ++ [Mock.testMessage])
        <$> List.filter
              (λ testCase, isConversationTestCase testCase
                           && negb (Mock.triggers trigger testCase)) testCases
    ∧ Forall (λ generated, Mock.commandRunId generated = runId
                           ∧ Mock.type generated = "conversation")
        (Mock.generatedData result)
    ∧ (length (Mock.generatedData result) + length (Mock.failedCases result)
       = length (List.filter (λ testCase, isConversationTestCase testCase) testCases))%nat.
Proof.
  intros Hall. unfold Mock.mockGenerateDataFunc.
  rewrite (filterNotFailed_returns [] _ (filter_conversation_wellformed _ Hall)).
  eexists. split; [reflexivity|]. cbn [Mock.failedCases Mock.generatedData app].
  rewrite !filter_filter_andb.
  split; [reflexivity|]. split; [|split].
  - rewrite fmap_imap. unfold compose. cbn [Mock.data].
    generalize (List.filter
                  (λ x, isConversationTestCase x && negb (Mock.triggers trigger x))
                  testCases).
    intros l. apply list_eq. intros i.
    rewrite list_lookup_imap, list_lookup_fmap. by destruct (l !! i).
  - apply Forall_forall. intros generated (i & testCase & -> & _)%elem_of_lookup_imap.
    by split.
  - rewrite length_imap.
    induction testCases as [|testCase l IH]; [reflexivity|].
    apply Forall_cons in Hall as [_ Hall]. specialize (IH Hall).
    simpl. destruct (isConversationTestCase testCase); simpl; [|exact IH].
    destruct (Mock.triggers trigger testCase); simpl; lia.
Qed.

(** X21. The mock generator throws as soon as a conversation test case is
    malformed, and returns neither generated data nor failed cases then:
    an AssertionError when its messages are not an array, a TypeError when
    they are the empty array. Test cases that are not conversation test
    cases are never looked into. *)
Theorem mockGenerateDataFunc_malformed
    (runId : nat) (good : list Mock.TestCase) (bad : Mock.TestCase)
    (rest : list Mock.TestCase) (nextId : nat) :
  Forall (λ testCase, isConversationTestCase testCase = true →
                      Mock.hasFirstMessage testCase = true) good →
  isConversationTestCase bad = true →
  Mock.hasFirstMessage bad = false →
  Mock.mockGenerateDataFunc isConversationTestCase trigger runId
    (good ++ bad :: rest) nextId
  = Thrown
      match Mock.messages bad with
      | None => AssertionError "something is wrong here"
      | Some _ => TypeError "Cannot read properties of undefined (reading 'content')"
      end.
Proof.
  intros Hgood Hconv Hbad. unfold Mock.mockGenerateDataFunc.
  rewrite List.filter_app. simpl. rewrite Hconv.
  by rewrite (filterNotFailed_throws [] _ bad _
                (filter_conversation_wellformed _ Hgood) Hbad).
Qed.

End MockProofs.

Lemma mockGenerateDataFunc_partition_witness :
  ∃ result,
    Mock.mockGenerateDataFunc Mock.isConversation "boom" 7
      [Mock.greeting; Mock.quiz; Mock.outage] 0
    = Returned result
    ∧ Mock.failedCases result = [Mock.outage]
    ∧ Mock.data <$> Mock.generatedData result
      = [[{| Mock.content := "hello"; Mock.role := "user" |}; Mock.testMessage]].
Proof.
  destruct (mockGenerateDataFunc_partition Mock.isConversation "boom" 7
              [Mock.greeting; Mock.quiz; Mock.outage] 0)
    as (result & Hrun & Hfailed & Hdata & _).
  - repeat constructor; discriminate.
  - exists result. split; [exact Hrun|]. split; [exact Hfailed|exact Hdata].
Defined.

Lemma mockGenerateDataFunc_malformed_witness :
  Mock.mockGenerateDataFunc Mock.isConversation "boom" 7
    ([Mock.greeting; Mock.quiz] ++ Mock.blank :: [Mock.broken]) 0
  = Thrown (TypeError "Cannot read properties of undefined (reading 'content')").
Proof.
  apply (mockGenerateDataFunc_malformed Mock.isConversation "boom" 7
           [Mock.greeting; Mock.quiz] Mock.blank [Mock.broken] 0).
  - repeat constructor; discriminate.
  - reflexivity.
  - reflexivity.
Defined.
